(** * Delivery orchestration engine of the action service

    A shallow embedding of the delivery-policy model, the retry scheduler,
    the routing resolver, the webhook ingestion path and the queue
    processor, together with the properties the specification states
    about them.

    Conventions of the embedding:
    - Python [int] is [Z]; a [timedelta] or a point in time is a number of
      seconds in [Z];
    - [Optional[T]] is [option T];
    - a function that may raise returns a [result]; a [try]/[except]
      block is a match on the [result] of its body;
    - a repository (a Python object mutated in place) is a record passed
      in and returned by every operation that touches it;
    - the clock is a parameter [now]: the readings of [datetime.now] made
      within one call are taken to agree. *)

From Stdlib Require Import ZArith Lia Ascii.
From Stdlib.Init Require Import Byte.
From stdpp Require Import gmap strings list pretty sorting.

Local Open Scope Z_scope.

(** ** Exceptions *)

Inductive exn : Type :=
  | ValueError (msg : string)
  | KeyError (key : string)
  | TypeError (msg : string)
  | RuntimeError (msg : string).

Inductive result (A : Type) : Type :=
  | Ok (a : A)
  | Raise (e : exn).

Arguments Ok {A} a.
Arguments Raise {A} e.

Definition bind {A B : Type} (m : result A) (k : A -> result B) : result B :=
  match m with
  | Ok a => k a
  | Raise e => Raise e
  end.

Notation "x <- m ;; k" := (bind m (fun x => k))
  (at level 100, m at next level, right associativity).

(** [str(e)] of an exception: its message. *)
Definition str_of_exn (e : exn) : string :=
  match e with
  | ValueError m => m
  | KeyError k => "'" +:+ k +:+ "'"
  | TypeError m => m
  | RuntimeError m => m
  end.

(** [value in {a, b, ...}] for strings. *)
Definition str_in (value : string) (xs : list string) : bool :=
  existsb (String.eqb value) xs.

(** ** domain/direction.py *)

Module ActionDirection.

Definition EFFERENT : string := "efferent".
Definition OUTBOUND : string := "outbound".
Definition AFFERENT : string := "afferent".
Definition INBOUND : string := "inbound".

Definition is_valid (value : string) : bool :=
  str_in value [EFFERENT; OUTBOUND; AFFERENT; INBOUND].

Definition normalize (value : string) : result string :=
  if str_in value [OUTBOUND; EFFERENT] then Ok EFFERENT
  else if str_in value [INBOUND; AFFERENT] then Ok AFFERENT
  else Raise (ValueError ("Invalid direction: " +:+ value)).

End ActionDirection.

(** ** domain/delivery.py *)

Record DeliverySemantic : Type := {
  sem_id : string;
  sem_name : string;
  sem_description : string;
  requires_ack : bool;
  allows_retry : bool;
  preserves_order : bool;
  requires_dedup : bool
}.

Record DeliveryPolicy : Type := {
  semantic : DeliverySemantic;
  max_retries : option Z;      (* None = unlimited *)
  retry_delay : Z;             (* seconds *)
  expiry : option Z            (* seconds; None = never expires *)
}.

(** The default of the field [retry_delay]: [timedelta(seconds=30)]. *)
Definition default_retry_delay : Z := 30.

(** [self.max_retries != 0] on an [Optional[int]]: [None != 0] holds. *)
Definition max_retries_ne_0 (m : option Z) : bool :=
  match m with
  | Some n => negb (n =? 0)
  | None => true
  end.

Definition DeliveryPolicy_post_init (self : DeliveryPolicy) : result unit :=
  if negb (allows_retry (semantic self)) && max_retries_ne_0 (max_retries self)
  then Raise (ValueError (sem_name (semantic self) +:+ " delivery cannot have retries"))
  else if requires_dedup (semantic self) && negb (requires_ack (semantic self))
  then Raise (ValueError (sem_name (semantic self) +:+ " delivery requires acknowledgment"))
  else Ok tt.

(** The dataclass constructor: build the record, then run [__post_init__]. *)
Definition new_DeliveryPolicy (sem : DeliverySemantic) (mr : option Z)
    (rd : Z) (ex : option Z) : result DeliveryPolicy :=
  let self := {| semantic := sem; max_retries := mr;
                 retry_delay := rd; expiry := ex |} in
  _ <- DeliveryPolicy_post_init self ;; Ok self.


(** ** Python values

    The values a message, a payload or a rule's [config] can hold: what
    JSON decoding produces, plus [PyObject] for any other object. Of such
    an object only its truth value matters here: [truth] is [None] when
    its [__bool__] raises. Floats are left out. A [str] is a sequence of
    code points below 256. *)

#[local] Set Warnings "-register-all".

Inductive pyvalue : Type :=
  | PyNone
  | PyBool (b : bool)
  | PyInt (n : Z)
  | PyStr (s : string)
  | PyList (xs : list pyvalue)
  | PyDict (kvs : list (string * pyvalue))
  | PyObject (truth : option bool).

(** [bool(value)] *)
Definition py_bool (value : pyvalue) : result bool :=
  match value with
  | PyNone => Ok false
  | PyBool b => Ok b
  | PyInt n => Ok (negb (n =? 0))
  | PyStr s => Ok (negb (String.eqb s ""))
  | PyList xs => Ok (match xs with [] => false | _ => true end)
  | PyDict kvs => Ok (match kvs with [] => false | _ => true end)
  | PyObject (Some b) => Ok b
  | PyObject None => Raise (TypeError "__bool__ raised")
  end.

(** [d[key]] / [d.get(key)] on the entries of a dict. *)
Fixpoint dict_get (kvs : list (string * pyvalue)) (key : string) : option pyvalue :=
  match kvs with
  | [] => None
  | (k, v) :: rest => if String.eqb k key then Some v else dict_get rest key
  end.

(** [value[part]] with a string subscript. *)
Definition py_getitem (value : pyvalue) (part : string) : result pyvalue :=
  match value with
  | PyDict kvs =>
      match dict_get kvs part with
      | Some v => Ok v
      | None => Raise (KeyError part)
      end
  | PyList _ => Raise (TypeError "list indices must be integers or slices, not str")
  | PyStr _ => Raise (TypeError "string indices must be integers, not 'str'")
  | _ => Raise (TypeError "object is not subscriptable")
  end.

(** [s.split('.')] *)
Fixpoint split_dot (s : string) : list string :=
  match s with
  | EmptyString => [""]
  | String c rest =>
      if Ascii.eqb c "."%char then "" :: split_dot rest
      else match split_dot rest with
           | h :: t => String c h :: t
           | [] => [String c ""]
           end
  end.

(** ** domain/routing.py *)

Record RoutingRule : Type := {
  rule_name : string;
  destination : string;
  condition : option string;
  priority : Z;
  config : list (string * pyvalue);
  rule_description : option string
}.

Record RoutingConfiguration : Type := {
  rules : list RoutingRule;
  strategy : string;
  fallback : option RoutingRule;
  routing_description : option string
}.

(** [not condition] on an [Optional[str]]: [None] and the empty string. *)
Definition not_condition (condition : option string) : bool :=
  match condition with
  | None => true
  | Some s => String.eqb s ""
  end.

(** [sorted(rules, key=lambda r: r.priority, reverse=True)]: a stable
    sort, rules of equal priority keep their order. *)
Fixpoint insert_by_priority (r : RoutingRule) (l : list RoutingRule) : list RoutingRule :=
  match l with
  | [] => [r]
  | h :: t =>
      if priority h <=? priority r then r :: h :: t
      else h :: insert_by_priority r t
  end.

Fixpoint sorted_by_priority (l : list RoutingRule) : list RoutingRule :=
  match l with
  | [] => []
  | r :: rest => insert_by_priority r (sorted_by_priority rest)
  end.

(** ** usecases/routing.py, the strategy-driven [RouteMessage] *)

Module RouteMessage.

(** The condition language is not implemented here: a rule with a
    condition never matches. *)
Definition _evaluate_condition (rule : RoutingRule) : bool :=
  if not_condition (condition rule) then true
  else false.

(** [for rule in rules: if match: append; break] *)
Fixpoint first_match_loop (rs : list RoutingRule) (destinations : list string) : list string :=
  match rs with
  | [] => destinations
  | rule :: rest =>
      if _evaluate_condition rule then destinations ++ [destination rule]
      else first_match_loop rest destinations
  end.

(** [for rule in rules: if match: append] *)
Fixpoint all_matching_loop (rs : list RoutingRule) (destinations : list string) : list string :=
  match rs with
  | [] => destinations
  | rule :: rest =>
      if _evaluate_condition rule
      then all_matching_loop rest (destinations ++ [destination rule])
      else all_matching_loop rest destinations
  end.

Definition execute (message : pyvalue) (routing_config : RoutingConfiguration) : list string :=
  let destinations :=
    if String.eqb (strategy routing_config) "first-match" then
      first_match_loop (rules routing_config) []
    else if String.eqb (strategy routing_config) "all-matching" then
      all_matching_loop (rules routing_config) []
    else if String.eqb (strategy routing_config) "priority" then
      first_match_loop (sorted_by_priority (rules routing_config)) []
    else [] in
  match destinations, fallback routing_config with
  | [], Some fb => destinations ++ [destination fb]
  | _, _ => destinations
  end.

End RouteMessage.

(** ** usecases/routing.py, the rule-list [RouteMessage] *)

Module RouteMessageRules.

(** The body of the [try] block: walk the dotted path, then [bool]. *)
Fixpoint lookup_path (parts : list string) (value : pyvalue) : result pyvalue :=
  match parts with
  | [] => Ok value
  | part :: rest => v <- py_getitem value part ;; lookup_path rest v
  end.

Definition _evaluate_condition (condition : option string) (message : pyvalue) : result bool :=
  if not_condition condition then Ok true
  else
    let body :=
      value <- lookup_path (split_dot (default "" condition)) message ;;
      py_bool value in
    match body with
    | Ok b => Ok b
    | Raise _ => Ok false       (* bare [except:] *)
    end.

(** [rule.config.get("stop_processing", False)] used as a condition. *)
Definition stop_processing (rule : RoutingRule) : result bool :=
  py_bool (default (PyBool false) (dict_get (config rule) "stop_processing")).

Fixpoint route_loop (message : pyvalue) (rs : list RoutingRule)
    (destinations : list string) : result (list string) :=
  match rs with
  | [] => Ok destinations
  | rule :: rest =>
      m <- _evaluate_condition (condition rule) message ;;
      if m then
        stop <- stop_processing rule ;;
        if stop then Ok (destinations ++ [destination rule])
        else route_loop message rest (destinations ++ [destination rule])
      else route_loop message rest destinations
  end.

Definition execute (message : pyvalue) (rs : list RoutingRule) : result (list string) :=
  route_loop message (sorted_by_priority rs) [].

End RouteMessageRules.

(** ** [json.dumps] and [str.encode('utf-8')]

    [json.dumps] with its default arguments: [ensure_ascii] is on and the
    separators are [", "] and [": "]. *)

Definition dquote : ascii := "034"%char.

Definition hex_digit (n : N) : ascii :=
  match n with
  | 0 => "0" | 1 => "1" | 2 => "2" | 3 => "3" | 4 => "4" | 5 => "5"
  | 6 => "6" | 7 => "7" | 8 => "8" | 9 => "9" | 10 => "a" | 11 => "b"
  | 12 => "c" | 13 => "d" | 14 => "e" | _ => "f"
  end%char%N.

Definition json_escape_char (c : ascii) : string :=
  let n := N_of_ascii c in
  if Ascii.eqb c dquote then String "\"%char (String dquote "")
  else if Ascii.eqb c "\"%char then "\\"
  else if Ascii.eqb c "010"%char then "\n"
  else if Ascii.eqb c "013"%char then "\r"
  else if Ascii.eqb c "009"%char then "\t"
  else if Ascii.eqb c "012"%char then "\f"
  else if Ascii.eqb c "008"%char then "\b"
  else if ((32 <=? n) && (n <=? 126))%N then String c ""
  else "\u00" +:+ String (hex_digit (n / 16)%N) (String (hex_digit (n mod 16)%N) "").

Fixpoint json_escape (s : string) : string :=
  match s with
  | EmptyString => ""
  | String c rest => json_escape_char c +:+ json_escape rest
  end.

Definition json_quote (s : string) : string :=
  String dquote (json_escape s +:+ String dquote "").

(** [sep.join(items)] *)
Fixpoint join (sep : string) (items : list string) : string :=
  match items with
  | [] => ""
  | [x] => x
  | x :: rest => x +:+ sep +:+ join sep rest
  end.

Fixpoint json_dumps (v : pyvalue) : result string :=
  match v with
  | PyNone => Ok "null"
  | PyBool true => Ok "true"
  | PyBool false => Ok "false"
  | PyInt n => Ok (pretty n)
  | PyStr s => Ok (json_quote s)
  | PyList xs =>
      items <- (fix go (l : list pyvalue) : result (list string) :=
                  match l with
                  | [] => Ok []
                  | x :: r => s <- json_dumps x ;; t <- go r ;; Ok (s :: t)
                  end) xs ;;
      Ok ("[" +:+ join ", " items +:+ "]")
  | PyDict kvs =>
      items <- (fix go (l : list (string * pyvalue)) : result (list string) :=
                  match l with
                  | [] => Ok []
                  | (k, x) :: r =>
                      s <- json_dumps x ;; t <- go r ;;
                      Ok ((json_quote k +:+ ": " +:+ s) :: t)
                  end) kvs ;;
      Ok ("{" +:+ join ", " items +:+ "}")
  | PyObject _ => Raise (TypeError "Object is not JSON serializable")
  end.

Definition encode_utf8_char (c : ascii) : list byte :=
  let n := N_of_ascii c in
  if (n <? 128)%N then [byte_of_ascii c]
  else [byte_of_ascii (ascii_of_N (192 + n / 64));
        byte_of_ascii (ascii_of_N (128 + n mod 64))].

Fixpoint encode_utf8 (s : string) : list byte :=
  match s with
  | EmptyString => []
  | String c rest => encode_utf8_char c ++ encode_utf8 rest
  end.

(** [len(b)] *)
Definition len {A : Type} (l : list A) : Z := Z.of_nat (length l).

(** ** interfaces/requests.py: [WebhookRequest] *)

Record WebhookRequest : Type := {
  payload : option pyvalue;
  raw_data : option (list byte);
  headers : gmap string string;
  content_type : string;
  metadata : option pyvalue;
  correlation_id : option string
}.

(** The field validator of [raw_data], the one place where the size of a
    body is measured: ["Enforce data size limit"]. *)
Definition validate_data_size (v : option (list byte)) : result (option (list byte)) :=
  match v with
  | Some b =>
      if (match b with [] => false | _ => true end) && (len b >? 1000000)
      then Raise (ValueError "Data exceeds 1MB size limit")
      else Ok v
  | None => Ok v
  end.

(** ** Webhooks and the event store they are recorded in *)

Record Webhook : Type := {
  webhook_id : string;
  webhook_key : string;
  webhook_config : list (string * pyvalue);
  enabled : bool
}.

Record Received : Type := {
  rec_webhook_id : string;
  rec_headers : gmap string string;
  rec_raw_body : list byte;
  rec_content_type : string;
  rec_correlation_id : option string;
  rec_timestamp : Z
}.

(** tests/test_webhooks.py, [InMemoryEventRepository]: the event store the
    ingestion use case is run against. A response id is the string of
    [UUID(int=n)]; it is kept as the integer [n]. *)
Record EventRepository : Type := {
  events : gmap N Received;
  statuses : gmap N string
}.

Definition record_received (self : EventRepository) (now : Z) (webhook_id : string)
    (raw_headers : gmap string string) (raw_body : list byte)
    (content_type : string) (correlation_id : option string) : N * EventRepository :=
  let response_id := (N.of_nat (size (events self)) + 1)%N in
  (response_id,
   {| events := <[response_id :=
                    {| rec_webhook_id := webhook_id; rec_headers := raw_headers;
                       rec_raw_body := raw_body; rec_content_type := content_type;
                       rec_correlation_id := correlation_id;
                       rec_timestamp := now |}]> (events self);
      statuses := <[response_id := "pending"]> (statuses self) |}).

Record WebhookAcceptedResponse : Type := {
  response_id : N;
  status : string;
  resp_correlation_id : option string;
  timestamp : Z
}.

(** ** usecases/webhooks.py *)

Module ReceiveWebhook.

(** [request.raw_data], else the serialised [request.payload], else [b''] *)
Definition raw_body_of (request : WebhookRequest) : result (list byte) :=
  match raw_data request with
  | Some d => Ok d
  | None =>
      match payload request with
      | Some p => s <- json_dumps p ;; Ok (encode_utf8 s)
      | None => Ok []
      end
  end.

(** [None] is the rejection; [_queue_processing] does nothing. *)
Definition execute (webhook_repo : gmap string Webhook) (event_repo : EventRepository)
    (now : Z) (webhook_id key : string) (request : WebhookRequest)
    : result (option WebhookAcceptedResponse * EventRepository) :=
  match webhook_repo !! webhook_id with
  | None => Ok (None, event_repo)
  | Some webhook =>
      if negb (String.eqb (webhook_key webhook) key) then Ok (None, event_repo)
      else
        raw_body <- raw_body_of request ;;
        let '(rid, event_repo') :=
          record_received event_repo now webhook_id (headers request) raw_body
                          (content_type request) (correlation_id request) in
        Ok (Some {| response_id := rid; status := "accepted";
                    resp_correlation_id := correlation_id request;
                    timestamp := now |},
            event_repo')
  end.

End ReceiveWebhook.

(** ** Events, actions and the collaborators of the queue use cases *)

Record Event : Type := {
  event_id : string;
  action_id : string;
  content : pyvalue;
  created_at : Z;
  processed_at : option Z
}.

Record Action : Type := {
  act_id : string;
  act_name : string;
  delivery_policy : DeliveryPolicy
}.

Record ActionResult : Type := {
  ar_action_id : string;
  request_id : string;
  success : bool;
  ar_result : option pyvalue;
  ar_error : option string
}.

(** What the use cases read from their repositories. The repositories
    themselves are collaborators: each read is a function of the
    environment. *)
Record Collaborators : Type := {
  actions : gmap string Action;                               (* action_repo.get_action *)
  action_execute : Action -> pyvalue -> result ActionResult;  (* action_repo.execute *)
  get_retry_count : string -> Z;                              (* event_repo.get_retry_count *)
  get_pending_events : Z -> list Event;                       (* event_repo.get_pending_events *)
  get_failed_events : Z -> Z -> list Event                    (* event_repo.get_failed_events *)
}.

(** What the use cases write: the calls they make on the event and result
    repositories, in order. *)
Inductive RepoCall : Type :=
  | update_status (id : string) (status : string) (processed_at : Z)
                  (error : option string) (retry_count : option Z)
  | schedule_retry (id : string)
  | store_result (id : string) (success : bool) (result : option pyvalue)
                 (error : option string).

(** ** usecases/process_queue.py *)

Module ProcessEventQueue.

Record Stats : Type := {
  processed : Z;
  succeeded : Z;
  failed : Z;
  retry_scheduled : Z
}.

Definition _handle_success (now : Z) (event : Event) (result : ActionResult)
    (calls : list RepoCall) : list RepoCall :=
  calls ++ [update_status (event_id event) "completed" now None None;
            store_result (event_id event) true (ar_result result) None].

(** Returns whether a retry was scheduled. *)
Definition _handle_failure (env : Collaborators) (now : Z) (event : Event)
    (error : option string) (calls : list RepoCall) : bool * list RepoCall :=
  let calls := calls ++ [update_status (event_id event) "failed" now error None] in
  let retry_count := get_retry_count env (event_id event) in
  let max_retries := 3 in
  if retry_count <? max_retries then
    (true, calls ++ [schedule_retry (event_id event)])
  else
    (false, calls ++ [store_result (event_id event) false None error]).

(** The counting after a failure that went through [_handle_failure]. *)
Definition count_failure (retry : bool) (stats : Stats) : Stats :=
  if retry then
    {| processed := processed stats + 1; succeeded := succeeded stats;
       failed := failed stats; retry_scheduled := retry_scheduled stats + 1 |}
  else
    {| processed := processed stats + 1; succeeded := succeeded stats;
       failed := failed stats + 1; retry_scheduled := retry_scheduled stats |}.

(** One turn of the loop of [execute]. *)
Definition process_event (env : Collaborators) (now : Z)
    (st : Stats * list RepoCall) (event : Event) : Stats * list RepoCall :=
  let '(stats, calls) := st in
  match actions env !! action_id event with
  | None =>
      let '(_, calls) := _handle_failure env now event (Some "Action not found") calls in
      ({| processed := processed stats; succeeded := succeeded stats;
          failed := failed stats + 1; retry_scheduled := retry_scheduled stats |},
       calls)                                                  (* continue *)
  | Some action =>
      match action_execute env action (content event) with
      | Ok result =>
          if success result then
            ({| processed := processed stats + 1; succeeded := succeeded stats + 1;
                failed := failed stats; retry_scheduled := retry_scheduled stats |},
             _handle_success now event result calls)
          else
            let '(retry, calls) := _handle_failure env now event (ar_error result) calls in
            (count_failure retry stats, calls)
      | Raise e =>
          let '(retry, calls) :=
            _handle_failure env now event (Some (str_of_exn e)) calls in
          (count_failure retry stats, calls)
      end
  end.

Definition execute (env : Collaborators) (now : Z) (batch_size : Z)
    (calls : list RepoCall) : Stats * list RepoCall :=
  let events := get_pending_events env batch_size in
  fold_left (process_event env now) events
    ({| processed := 0; succeeded := 0; failed := 0; retry_scheduled := 0 |}, calls).

End ProcessEventQueue.

(** ** usecases/events/retry_events.py *)

Module RetryFailedEvents.

Record Stats : Type := {
  retried : Z;
  succeeded : Z;
  failed : Z;
  max_attempts : Z
}.

(** [retry_count] is a count of attempts, hence not negative (a negative
    exponent would leave the integers in Python). *)
Definition _calculate_backoff (retry_count : Z) : Z :=
  let delay_seconds := 30 * 2 ^ retry_count in
  Z.min delay_seconds 3600.

Definition _should_retry_now (now : Z) (event : Event) (backoff : Z) : bool :=
  match processed_at event with
  | None => true
  | Some t => backoff <=? now - t
  end.

Definition _handle_success (now : Z) (event : Event) (result : ActionResult)
    (calls : list RepoCall) : list RepoCall :=
  calls ++ [update_status (event_id event) "completed" now None None;
            store_result (event_id event) true (ar_result result) None].

Definition _handle_failure (now : Z) (event : Event) (error : option string)
    (retry_count : Z) (calls : list RepoCall) : list RepoCall :=
  calls ++ [update_status (event_id event) "failed" now error (Some retry_count)].

(** Permanent failure: no more retries. *)
Definition _handle_permanent_failure (now : Z) (event : Event) (error : string)
    (calls : list RepoCall) : list RepoCall :=
  calls ++ [update_status (event_id event) "failed" now (Some error) None;
            store_result (event_id event) false None (Some error)].

Definition count_failed_retry (stats : Stats) : Stats :=
  {| retried := retried stats + 1; succeeded := succeeded stats;
     failed := failed stats + 1; max_attempts := max_attempts stats |}.

(** One turn of the loop of [execute]. *)
Definition retry_event (env : Collaborators) (now : Z) (max_retries : Z)
    (st : Stats * list RepoCall) (event : Event) : Stats * list RepoCall :=
  let '(stats, calls) := st in
  let retry_count := get_retry_count env (event_id event) in
  if max_retries <=? retry_count then
    ({| retried := retried stats; succeeded := succeeded stats;
        failed := failed stats; max_attempts := max_attempts stats + 1 |},
     calls)                                                    (* continue *)
  else
    let backoff := _calculate_backoff retry_count in
    if negb (_should_retry_now now event backoff) then (stats, calls)
    else
      match actions env !! action_id event with
      | None =>
          ({| retried := retried stats; succeeded := succeeded stats;
              failed := failed stats + 1; max_attempts := max_attempts stats |},
           _handle_permanent_failure now event "Action not found" calls)
      | Some action =>
          match action_execute env action (content event) with
          | Ok result =>
              if success result then
                ({| retried := retried stats + 1; succeeded := succeeded stats + 1;
                    failed := failed stats; max_attempts := max_attempts stats |},
                 _handle_success now event result calls)
              else
                (count_failed_retry stats,
                 _handle_failure now event (ar_error result) (retry_count + 1) calls)
          | Raise e =>
              (count_failed_retry stats,
               _handle_failure now event (Some (str_of_exn e)) (retry_count + 1) calls)
          end
      end.

Definition execute (env : Collaborators) (now : Z) (max_retries batch_size : Z)
    (calls : list RepoCall) : Stats * list RepoCall :=
  let events := get_failed_events env max_retries batch_size in
  fold_left (retry_event env now max_retries) events
    ({| retried := 0; succeeded := 0; failed := 0; max_attempts := 0 |}, calls).

End RetryFailedEvents.

(** ** The specification's wording of the properties under study *)

(** §4.3, eligibility: retry is allowed iff the semantic allows retry, and
    [maxRetries] is unlimited or [retryCount < maxRetries], and [expiry] is
    unset or [now - createdAt < expiry]. *)
Definition spec_retry_allowed (policy : DeliveryPolicy) (retry_count now created : Z) : bool :=
  allows_retry (semantic policy)
  && match max_retries policy with
     | None => true
     | Some m => retry_count <? m
     end
  && match expiry policy with
     | None => true
     | Some e => now - created <? e
     end.

(** §4.3, backoff: [min(policy.retryDelay * 2^retryCount, capDuration)],
    the cap being one hour. *)
Definition spec_backoff (policy : DeliveryPolicy) (retry_count : Z) : Z :=
  Z.min (retry_delay policy * 2 ^ retry_count) 3600.

(** The backoff the retry use case computes is the one §4.3 prescribes,
    whatever the policy of the event's action. *)
Definition backoff_follows_policy : Prop :=
  forall (policy : DeliveryPolicy) (retry_count : Z),
    0 <= retry_count ->
    RetryFailedEvents._calculate_backoff retry_count = spec_backoff policy retry_count.

(** The retry decision of the queue processor for [event], owned by
    [action], is the one §4.3 prescribes for the action's policy. *)
Definition retry_decision_follows_policy (env : Collaborators) (now : Z)
    (event : Event) (action : Action) : Prop :=
  actions env !! action_id event = Some action ->
  forall error calls,
    fst (ProcessEventQueue._handle_failure env now event error calls)
    = spec_retry_allowed (delivery_policy action)
        (get_retry_count env (event_id event)) now (created_at event).

(** §4.5, idempotency: a second submission of [request], made while the
    event of the first is still pending, returns the first response id and
    adds no event. *)
Definition resubmission_is_idempotent (webhook_repo : gmap string Webhook)
    (event_repo : EventRepository) (now1 now2 : Z) (webhook_id key : string)
    (request : WebhookRequest) : Prop :=
  forall r1 repo1,
    ReceiveWebhook.execute webhook_repo event_repo now1 webhook_id key request
      = Ok (Some r1, repo1) ->
    statuses repo1 !! response_id r1 = Some "pending" ->
    exists r2,
      ReceiveWebhook.execute webhook_repo repo1 now2 webhook_id key request
        = Ok (Some r2, repo1)
      /\ response_id r2 = response_id r1.

(** The store holds exactly the response ids [1 .. size], as every store
    built by [record_received] from the empty one does. *)
Definition ids_dense (repo : EventRepository) : Prop :=
  forall k : N, is_Some (events repo !! k) <-> (1 <= k <= N.of_nat (size (events repo)))%N.

(** ** Scenarios *)

Module Scenario.

(** repositories/behaviour.py: the catalogue's semantics. *)
Definition _AT_LEAST_ONCE : DeliverySemantic :=
  {| sem_id := "at_least_once"; sem_name := "At Least Once";
     sem_description := "Message will be delivered one or more times";
     requires_ack := true; allows_retry := true;
     preserves_order := false; requires_dedup := false |}.

Definition _STREAMING : DeliverySemantic :=
  {| sem_id := "streaming"; sem_name := "Streaming";
     sem_description := "Continuous stream of messages with backpressure";
     requires_ack := true; allows_retry := false;
     preserves_order := true; requires_dedup := false |}.

(** repositories/behaviour.py: [_DEFAULT_HTTP_POLICY] and
    [_DEFAULT_EMAIL_POLICY], the latter with a retry delay of 5 minutes. *)
Definition http_policy : DeliveryPolicy :=
  {| semantic := _AT_LEAST_ONCE; max_retries := Some 3; retry_delay := 30; expiry := None |}.

Definition email_policy : DeliveryPolicy :=
  {| semantic := _AT_LEAST_ONCE; max_retries := Some 5; retry_delay := 300; expiry := None |}.

(** A streaming policy: retries are not allowed, so [max_retries] is 0. *)
Definition streaming_policy : DeliveryPolicy :=
  {| semantic := _STREAMING; max_retries := Some 0; retry_delay := 30; expiry := None |}.

Definition stream_action : Action :=
  {| act_id := "act-1"; act_name := "push to stream"; delivery_policy := streaming_policy |}.

Definition failing_handler (a : Action) (c : pyvalue) : result ActionResult :=
  Ok {| ar_action_id := act_id a; request_id := "req-1"; success := false;
        ar_result := None; ar_error := Some "connection reset" |}.

Definition event1 : Event :=
  {| event_id := "evt-1"; action_id := "act-1"; content := PyDict [];
     created_at := 1000; processed_at := None |}.

(** One pending event, never retried so far, whose action is registered. *)
Definition env_stream : Collaborators :=
  {| actions := {[ "act-1" := stream_action ]};
     action_execute := failing_handler;
     get_retry_count := fun _ => 0;
     get_pending_events := fun _ => [event1];
     get_failed_events := fun _ _ => [event1] |}.

(** The same event, but its action is not in the repository. *)
Definition env_no_action : Collaborators :=
  {| actions := ∅;
     action_execute := failing_handler;
     get_retry_count := fun _ => 0;
     get_pending_events := fun _ => [event1];
     get_failed_events := fun _ _ => [event1] |}.

(** tests/test_webhooks.py: the webhook of [MockWebhookRepo]. *)
Definition webhooks : gmap string Webhook :=
  {[ "test-webhook" := {| webhook_id := "test-webhook"; webhook_key := "test-key";
                          webhook_config := []; enabled := true |} ]}.

Definition empty_repo : EventRepository := {| events := ∅; statuses := ∅ |}.

Definition binary_request : WebhookRequest :=
  {| payload := None; raw_data := Some (encode_utf8 "binary test data");
     headers := ∅; content_type := "application/octet-stream";
     metadata := None; correlation_id := Some "test-124" |}.

(** [n] times the character [c]. *)
Fixpoint replicate_char (n : nat) (c : ascii) : string :=
  match n with
  | O => ""
  | S k => String c (replicate_char k c)
  end.

(** A JSON payload [{"data": "xxx...x"}] with [n] letters. *)
Definition json_payload (n : nat) : pyvalue :=
  PyDict [("data", PyStr (replicate_char n "x"))].

Definition json_request (n : nat) : WebhookRequest :=
  {| payload := Some (json_payload n); raw_data := None;
     headers := ∅; content_type := "application/json";
     metadata := None; correlation_id := None |}.

(** §8: the two rules of the first-match example. *)
Definition rule_Q1 : RoutingRule :=
  {| rule_name := "high-priority"; destination := "Q1"; condition := Some "priority>5";
     priority := 0; config := []; rule_description := None |}.

Definition rule_Q2 : RoutingRule :=
  {| rule_name := "normal"; destination := "Q2"; condition := None;
     priority := 0; config := []; rule_description := None |}.

Definition first_match_config : RoutingConfiguration :=
  {| rules := [rule_Q1; rule_Q2]; strategy := "first-match";
     fallback := None; routing_description := None |}.

Definition message_priority (n : Z) : pyvalue := PyDict [("priority", PyInt n)].

(** Two rules without a condition, the one of lower priority configured
    first. *)
Definition rule_low : RoutingRule :=
  {| rule_name := "archive"; destination := "archive"; condition := None;
     priority := 1; config := []; rule_description := None |}.

Definition rule_high : RoutingRule :=
  {| rule_name := "alerts"; destination := "alerts"; condition := None;
     priority := 9; config := []; rule_description := None |}.

Definition low_before_high_config : RoutingConfiguration :=
  {| rules := [rule_low; rule_high]; strategy := "first-match";
     fallback := None; routing_description := None |}.

End Scenario.

(** The record and the response of an accepted submission. *)
Definition received_at (now : Z) (wid : string) (request : WebhookRequest)
    (body : list byte) : Received :=
  {| rec_webhook_id := wid; rec_headers := headers request;
     rec_raw_body := body; rec_content_type := content_type request;
     rec_correlation_id := correlation_id request; rec_timestamp := now |}.

Definition accepted (rid : N) (now : Z) (request : WebhookRequest) : WebhookAcceptedResponse :=
  {| response_id := rid; status := "accepted";
     resp_correlation_id := correlation_id request; timestamp := now |}.

(** ** usecases/routing.py: [ValidateRouting] *)

Module ValidateRouting.

(** [self.action_repo.get_action(d)] is not [None]; the action repository
    is the dict of [InMemoryActionRepository]. *)
Definition action_exists (action_repo : gmap string Action) (d : string) : bool :=
  match action_repo !! d with
  | Some _ => true
  | None => false
  end.

(** The body of the [try] block; with a dict for a repository nothing in
    it raises, so the [except] branch is never taken. *)
Definition execute (action_repo : gmap string Action) (config : RoutingConfiguration) : bool :=
  if (match rules config with [] => true | _ => false end) then false
  else if negb (forallb (fun rule => action_exists action_repo (destination rule))
                  (rules config)) then false
  else if negb (str_in (strategy config) ["first-match"; "all-matching"; "priority"])
  then false
  else
    match fallback config with
    | Some fb => if negb (action_exists action_repo (destination fb)) then false else true
    | None => true
    end.

End ValidateRouting.

(** ** tests/test_webhooks.py: the remaining methods of the two stores *)

(** [str(UUID(int=n))]: 32 hexadecimal digits in groups of 8-4-4-4-12. *)
Fixpoint hex_fixed (digits : nat) (n : N) : string :=
  match digits with
  | O => ""
  | S d => hex_fixed d (n / 16)%N +:+ String (hex_digit (n mod 16)%N) ""
  end.

Definition uuid_str (n : N) : string :=
  hex_fixed 8 (n / 2 ^ 96)%N +:+ "-" +:+ hex_fixed 4 (n / 2 ^ 80)%N +:+ "-"
  +:+ hex_fixed 4 (n / 2 ^ 64)%N +:+ "-" +:+ hex_fixed 4 (n / 2 ^ 48)%N +:+ "-"
  +:+ hex_fixed 12 n.

Record EventStatus : Type := {
  state : string;
  status_correlation_id : option string;
  status_error : option string
}.

Record WebhookResult : Type := {
  wr_success : bool;
  wr_result : option pyvalue;
  wr_error : option string
}.

Module InMemoryEventRepository.

(** The entry of [events] is read with [[]], which raises on a missing key;
    its key "error" is set by no method of the store, so [.get("error")]
    is [None]. *)
Definition get_status (self : EventRepository) (response_id : N) : result (option EventStatus) :=
  match statuses self !! response_id with
  | None => Ok None
  | Some st =>
      match events self !! response_id with
      | Some ev => Ok (Some {| state := st;
                               status_correlation_id := rec_correlation_id ev;
                               status_error := None |})
      | None => Raise (KeyError (uuid_str response_id))
      end
  end.

Definition update_status (self : EventRepository) (response_id : N) (status : string)
    : EventRepository :=
  match statuses self !! response_id with
  | Some _ => {| events := events self;
                 statuses := <[response_id := status]> (statuses self) |}
  | None => self
  end.

End InMemoryEventRepository.

Module InMemoryResultRepository.

Definition get_result (self : gmap N WebhookResult) (response_id : N) : option WebhookResult :=
  self !! response_id.

Definition store_result (self : gmap N WebhookResult) (response_id : N) (success : bool)
    (result : option pyvalue) (error : option string) : gmap N WebhookResult :=
  <[response_id := {| wr_success := success; wr_result := result; wr_error := error |}]> self.

End InMemoryResultRepository.

(** ** usecases/webhooks.py: [GetWebhookStatus] and [_validate_webhook] *)

Record WebhookStatusResponse : Type := {
  sr_response_id : N;
  sr_status : string;
  sr_result : option pyvalue;
  sr_error : option string;
  sr_correlation_id : option string;
  sr_timestamp : Z
}.

(** [not s] on an [Optional[str]]. *)
Definition str_falsy (s : option string) : bool :=
  match s with
  | None => true
  | Some x => String.eqb x ""
  end.

Module GetWebhookStatus.

(** The [except] clause re-raises, so an exception of the body is the
    exception of the call. The response model checks its fields when it is
    built: [status] is one of "pending", "processing", "completed" and
    "failed", and [result] a dict or [None]; [execute] is the call on
    stores that hold such values. *)
Definition execute (event_repo : EventRepository) (result_repo : gmap N WebhookResult)
    (now : Z) (response_id : N) : result WebhookStatusResponse :=
  status <- InMemoryEventRepository.get_status event_repo response_id ;;
  match status with
  | None => Raise (ValueError ("Unknown response ID: " +:+ uuid_str response_id))
  | Some status =>
      let '(result, error) :=
        if str_in (state status) ["completed"; "failed"] then
          match InMemoryResultRepository.get_result result_repo response_id with
          | Some webhook_result => (wr_result webhook_result, wr_error webhook_result)
          | None => (None, None)
          end
        else (None, None) in
      let error :=
        if str_falsy error && negb (str_falsy (status_error status))
        then status_error status else error in
      Ok {| sr_response_id := response_id; sr_status := state status;
            sr_result := result; sr_error := error;
            sr_correlation_id := status_correlation_id status;
            sr_timestamp := now |}
  end.

End GetWebhookStatus.

(** repositories/memory.py, [InMemoryWebhookRepository.validate_key], which
    [ReceiveWebhook._validate_webhook] hands over to. *)
Definition validate_key (webhook_repo : gmap string Webhook) (webhook_id key : string) : bool :=
  match webhook_repo !! webhook_id with
  | Some webhook => String.eqb (webhook_key webhook) key
  | None => false
  end.

(** The event stores a sequence of ingestion calls and status updates can
    lead to, starting from the empty one. *)
Inductive reachable (webhook_repo : gmap string Webhook) : EventRepository -> Prop :=
  | reachable_empty :
      reachable webhook_repo {| events := ∅; statuses := ∅ |}
  | reachable_receive repo now webhook_id key request response repo' :
      reachable webhook_repo repo ->
      ReceiveWebhook.execute webhook_repo repo now webhook_id key request
        = Ok (response, repo') ->
      reachable webhook_repo repo'
  | reachable_update repo response_id status :
      reachable webhook_repo repo ->
      reachable webhook_repo (InMemoryEventRepository.update_status repo response_id status).

(** ** usecases/events/cleanup_events.py *)

Record MetadataField : Type := {
  field_name : string;
  field_value : pyvalue;
  field_category : string;
  field_description : option string
}.

(** The fields of an event the cleanup reads. *)
Record EventRow : Type := {
  row_id : string;
  row_status : string;
  row_metadata : list MetadataField
}.

Inductive CleanupCall : Type :=
  | delete_result (id : string)
  | delete_event (id : string)
  | record_error (id : string) (error : string).

Module CleanupExpiredEvents.

Record Stats : Type := {
  deleted : Z;
  retained : Z;
  errors : Z
}.

(** [any(field.name == "retain" and field.value for field in metadata)] *)
Fixpoint any_retain (metadata : list MetadataField) : result bool :=
  match metadata with
  | [] => Ok false
  | field :: rest =>
      if String.eqb (field_name field) "retain" then
        b <- py_bool (field_value field) ;;
        if b then Ok true else any_retain rest
      else any_retain rest
  end.

Definition _can_delete (env : Collaborators) (event : EventRow) : result bool :=
  if String.eqb (row_status event) "pending" then Ok false
  else
    retain <- any_retain (row_metadata event) ;;
    if retain then Ok false
    else
      let retry_count := get_retry_count env (row_id event) in
      if (0 <? retry_count) && (retry_count <? 3) then Ok false
      else Ok true.

(** One turn of the loop of [execute]. *)
Definition cleanup_event (env : Collaborators) (st : Stats * list CleanupCall)
    (event : EventRow) : Stats * list CleanupCall :=
  let '(stats, calls) := st in
  match _can_delete env event with
  | Ok true =>
      ({| deleted := deleted stats + 1; retained := retained stats;
          errors := errors stats |},
       calls ++ [delete_result (row_id event); delete_event (row_id event)])
  | Ok false =>
      ({| deleted := deleted stats; retained := retained stats + 1;
          errors := errors stats |},
       calls)
  | Raise e =>
      ({| deleted := deleted stats; retained := retained stats;
          errors := errors stats + 1 |},
       calls ++ [record_error (row_id event) ("Cleanup failed: " +:+ str_of_exn e)])
  end.

(** [list_events cutoff] is [event_repo.list_events(end_time=cutoff)]. *)
Definition execute (env : Collaborators) (list_events : Z -> list EventRow) (now : Z)
    (retention_days : Z) (calls : list CleanupCall) : Stats * list CleanupCall :=
  let cutoff := now - retention_days * 86400 in
  let events := list_events cutoff in
  fold_left (cleanup_event env) events
    ({| deleted := 0; retained := 0; errors := 0 |}, calls).

End CleanupExpiredEvents.

(** ** usecases/events/list_history.py *)

(** [l[start:stop]]: a negative index counts from the end, and both are
    clamped to the list. *)
Definition slice_index (n i : Z) : Z :=
  if i <? 0 then Z.max (i + n) 0 else Z.min i n.

Definition py_slice {A : Type} (l : list A) (start stop : Z) : list A :=
  let lo := slice_index (len l) start in
  let hi := slice_index (len l) stop in
  take (Z.to_nat (hi - lo)) (drop (Z.to_nat lo) l).

Inductive ZeroDivisionError : Type := division_by_zero.

Module ListEventHistory.

Record History (F : Type) : Type := {
  history_events : list F;
  total : Z;
  page_number : Z;
  pages : Z
}.

Arguments history_events {F} _.
Arguments total {F} _.
Arguments page_number {F} _.
Arguments pages {F} _.

(** [list_events] is the repository's query and [_format_event] the
    rendering of one event; [//] by zero raises. *)
Definition execute {F : Type}
    (list_events : Z -> Z -> option (list string) -> option string -> list Event)
    (_format_event : Event -> F) (now : Z)
    (start_time end_time : option Z) (event_types : option (list string))
    (status : option string) (page page_size : Z) : ZeroDivisionError + History F :=
  let end_time := default now end_time in
  let start_time := default (end_time - 7 * 86400) start_time in
  let events := list_events start_time end_time event_types status in
  let total := len events in
  if page_size =? 0 then inl division_by_zero
  else
    let total_pages := (total + page_size - 1) `div` page_size in
    let start_idx := (page - 1) * page_size in
    let end_idx := start_idx + page_size in
    let page_events := py_slice events start_idx end_idx in
    inr {| history_events := map _format_event page_events;
           total := total; page_number := page; pages := total_pages |}.

End ListEventHistory.

(** ** Notions the properties are stated with *)

(** Whether a rule matches under the dotted-path evaluator. *)
Definition rule_matches (message : pyvalue) (rule : RoutingRule) : bool :=
  match RouteMessageRules._evaluate_condition (condition rule) message with
  | Ok b => b
  | Raise _ => false
  end.

(** The status updates among the calls made, as (event id, status). *)
Fixpoint status_updates (calls : list RepoCall) : list (string * string) :=
  match calls with
  | [] => []
  | update_status id status _ _ _ :: rest => (id, status) :: status_updates rest
  | _ :: rest => status_updates rest
  end.

(** Whether the action of an event is missing from the repository. *)
Definition action_missing (env : Collaborators) (event : Event) : bool :=
  match actions env !! action_id event with
  | Some _ => false
  | None => true
  end.

(** Every event of the store has a status, and nothing else has one. *)
Definition same_keys (repo : EventRepository) : Prop :=
  forall k : N, is_Some (statuses repo !! k) <-> is_Some (events repo !! k).

(** Rules in non-increasing order of priority. *)
Definition priority_ge (a b : RoutingRule) : Prop := priority b <= priority a.

(** * Properties *)

(** ** Directions *)

Section Direction.
Import ActionDirection.

Lemma str_in_cons (x a : string) (l : list string) :
  str_in x (a :: l) = String.eqb x a || str_in x l.
Proof. reflexivity. Qed.

Lemma normalize_cases (x : string) :
  (x = OUTBOUND /\ normalize x = Ok EFFERENT) \/
  (x = EFFERENT /\ normalize x = Ok EFFERENT) \/
  (x = INBOUND /\ normalize x = Ok AFFERENT) \/
  (x = AFFERENT /\ normalize x = Ok AFFERENT) \/
  (is_valid x = false /\ normalize x = Raise (ValueError ("Invalid direction: " +:+ x))).
Proof.
  unfold normalize, is_valid. rewrite !str_in_cons.
  destruct (String.eqb_spec x OUTBOUND) as [->|]; [left; split; reflexivity|].
  destruct (String.eqb_spec x EFFERENT) as [->|]; [right; left; split; reflexivity|].
  destruct (String.eqb_spec x INBOUND) as [->|]; [do 2 right; left; split; reflexivity|].
  destruct (String.eqb_spec x AFFERENT) as [->|]; [do 3 right; left; split; reflexivity|].
  do 4 right. split; reflexivity.
Qed.

(** C10: [normalize] succeeds exactly on the valid direction strings and
    raises [ValueError] on every other one; when it succeeds it returns
    "efferent" (for "outbound" and "efferent") or "afferent" (for "inbound"
    and "afferent"), and normalising its result again changes nothing. *)
Theorem normalize_total_on_valid_idempotent (x : string) :
  ((exists y, normalize x = Ok y) <-> is_valid x = true)
  /\ (is_valid x = false ->
      normalize x = Raise (ValueError ("Invalid direction: " +:+ x)))
  /\ (forall y, normalize x = Ok y ->
        ((y = "efferent" /\ (x = "outbound" \/ x = "efferent"))
         \/ (y = "afferent" /\ (x = "inbound" \/ x = "afferent")))
        /\ normalize y = Ok y)
  /\ normalize "outbound" = Ok "efferent" /\ normalize "efferent" = Ok "efferent"
  /\ normalize "inbound" = Ok "afferent" /\ normalize "afferent" = Ok "afferent".
Proof.
  pose proof (normalize_cases x) as C.
  split; [|split; [|split; [|repeat split; reflexivity]]].
  - split.
    + intros [y Hy].
      destruct C as [[-> _]|[[-> _]|[[-> _]|[[-> _]|[_ H]]]]]; try reflexivity.
      rewrite H in Hy. discriminate.
    + intros Hv.
      destruct C as [[-> H]|[[-> H]|[[-> H]|[[-> H]|[Hi _]]]]]; eauto.
      rewrite Hi in Hv. discriminate.
  - intros Hv.
    destruct C as [[-> _]|[[-> _]|[[-> _]|[[-> _]|[_ H]]]]]; try discriminate Hv.
    exact H.
  - intros y Hy.
    destruct C as [[-> H]|[[-> H]|[[-> H]|[[-> H]|[_ H]]]]];
      rewrite H in Hy; inversion Hy; subst; clear Hy;
      unfold OUTBOUND, EFFERENT, INBOUND, AFFERENT;
      (split; [tauto | reflexivity]).
Qed.

End Direction.

(** ** Delivery policies *)

Lemma max_retries_ne_0_spec (m : option Z) :
  max_retries_ne_0 m = true <-> m <> Some 0.
Proof.
  destruct m as [n|]; simpl.
  - rewrite negb_true_iff, Z.eqb_neq. split; [congruence|].
    intros H E. apply H. now rewrite E.
  - split; [discriminate | reflexivity].
Qed.

Lemma post_init_raises_iff (self : DeliveryPolicy) :
  (exists msg, DeliveryPolicy_post_init self = Raise (ValueError msg))
  <-> (allows_retry (semantic self) = false /\ max_retries self <> Some 0)
      \/ (requires_dedup (semantic self) = true /\ requires_ack (semantic self) = false).
Proof.
  unfold DeliveryPolicy_post_init.
  rewrite <- max_retries_ne_0_spec.
  destruct (allows_retry (semantic self)), (max_retries_ne_0 (max_retries self)),
    (requires_dedup (semantic self)), (requires_ack (semantic self)); simpl;
    split; intros H;
    try (destruct H as [msg H]; discriminate H);
    try (destruct H as [[H1 H2]|[H1 H2]]; discriminate);
    eauto.
Qed.

(** C3: constructing a [DeliveryPolicy] raises if and only if the semantic
    forbids retries while [max_retries] is not 0, or the semantic requires
    deduplication without requiring acknowledgment; when neither is the
    case the construction succeeds with the fields as given. *)
Theorem policy_construction_fails_iff_invariant_violated
    (sem : DeliverySemantic) (mr : option Z) (rd : Z) (ex : option Z) :
  ((exists msg, new_DeliveryPolicy sem mr rd ex = Raise (ValueError msg))
   <-> (allows_retry sem = false /\ mr <> Some 0)
       \/ (requires_dedup sem = true /\ requires_ack sem = false))
  /\ (~ ((allows_retry sem = false /\ mr <> Some 0)
         \/ (requires_dedup sem = true /\ requires_ack sem = false))
      <-> new_DeliveryPolicy sem mr rd ex
          = Ok {| semantic := sem; max_retries := mr; retry_delay := rd; expiry := ex |}).
Proof.
  set (self := {| semantic := sem; max_retries := mr; retry_delay := rd; expiry := ex |}).
  pose proof (post_init_raises_iff self) as Hiff. simpl in Hiff.
  assert (Hnew : new_DeliveryPolicy sem mr rd ex
                 = match DeliveryPolicy_post_init self with
                   | Ok _ => Ok self
                   | Raise e => Raise e
                   end) by reflexivity.
  split.
  - rewrite <- Hiff, Hnew.
    destruct (DeliveryPolicy_post_init self) as [u|e]; split; intros [msg H].
    + discriminate H.
    + discriminate H.
    + inversion H. eauto.
    + inversion H. eauto.
  - rewrite <- Hiff, Hnew.
    destruct (DeliveryPolicy_post_init self) as [u|e] eqn:E; split.
    + reflexivity.
    + intros _ [msg H]. discriminate H.
    + intros H. exfalso. apply H.
      unfold DeliveryPolicy_post_init in E.
      destruct (_ && _) in E; [inversion E; eauto|].
      destruct (_ && _) in E; [inversion E; eauto|discriminate E].
    + discriminate.
Qed.

Example streaming_policy_without_limit_is_refused :
  new_DeliveryPolicy Scenario._STREAMING None 30 None
  = Raise (ValueError "Streaming delivery cannot have retries").
Proof. reflexivity. Qed.

Example at_least_once_policy_is_accepted :
  new_DeliveryPolicy Scenario._AT_LEAST_ONCE (Some 3) 30 None
  = Ok {| semantic := Scenario._AT_LEAST_ONCE; max_retries := Some 3;
          retry_delay := 30; expiry := None |}.
Proof. reflexivity. Qed.

(** ** Backoff *)

Section Backoff.
Import RetryFailedEvents.

Lemma backoff_le_cap (n : Z) : _calculate_backoff n <= 3600.
Proof. unfold _calculate_backoff. lia. Qed.

Lemma backoff_mono (a b : Z) :
  0 <= a -> a <= b -> _calculate_backoff a <= _calculate_backoff b.
Proof.
  intros Ha Hab. unfold _calculate_backoff.
  assert (2 ^ a <= 2 ^ b) by (apply Z.pow_le_mono_r; lia).
  lia.
Qed.

Lemma backoff_agrees_iff (delay retry_count : Z) :
  0 <= retry_count ->
  _calculate_backoff retry_count = Z.min (delay * 2 ^ retry_count) 3600
  <-> delay = 30 \/ (3600 <= 30 * 2 ^ retry_count /\ 3600 <= delay * 2 ^ retry_count).
Proof.
  intros Hnn. unfold _calculate_backoff.
  assert (Hp : 0 < 2 ^ retry_count) by (apply Z.pow_pos_nonneg; lia).
  remember (2 ^ retry_count) as p eqn:Ep. clear Ep.
  split.
  - intros H.
    destruct (Z.eq_dec delay 30) as [->|Hne]; [now left | right].
    destruct (Z.le_gt_cases 3600 (30 * p)) as [H30|H30];
      destruct (Z.le_gt_cases 3600 (delay * p)) as [Hd|Hd]; [lia | lia | lia |].
    exfalso. apply Hne. nia.
  - intros [-> | [H30 Hd]]; lia.
Qed.

Example email_policy_is_valid :
  new_DeliveryPolicy Scenario._AT_LEAST_ONCE (Some 5) 300 None = Ok Scenario.email_policy.
Proof. reflexivity. Qed.

(** C1, as the code has it: the backoff of the retry with 0-based count
    [retry_count] is min(30 * 2^retry_count, 3600) seconds, the base of 30
    seconds being a constant of the retry use case and not the retry delay
    of the action's policy: it is the delay the policy formula gives
    exactly when the policy's retry delay is 30 seconds, or when both
    delays have reached the cap. The delays are 30, 60, 120, 240, 480, 960
    and 1920 seconds for counts 0 to 6 and exactly 3600 for count 10; the
    backoff never exceeds the cap of one hour and never decreases as the
    count grows. *)
Theorem backoff_exponential_monotone_capped (retry_count : Z) :
  0 <= retry_count ->
  _calculate_backoff retry_count = Z.min (30 * 2 ^ retry_count) 3600
  /\ (forall policy,
        _calculate_backoff retry_count = spec_backoff policy retry_count
        <-> retry_delay policy = 30
            \/ (3600 <= 30 * 2 ^ retry_count
                /\ 3600 <= retry_delay policy * 2 ^ retry_count))
  /\ _calculate_backoff retry_count <= 3600
  /\ (forall later, retry_count <= later ->
        _calculate_backoff retry_count <= _calculate_backoff later)
  /\ map _calculate_backoff [0; 1; 2; 3; 4; 5; 6] = [30; 60; 120; 240; 480; 960; 1920]
  /\ _calculate_backoff 10 = 3600.
Proof.
  intros Hnn. split; [reflexivity|].
  split; [intros policy; now apply backoff_agrees_iff|].
  split; [apply backoff_le_cap|].
  split; [intros later Hl; now apply backoff_mono|].
  split; reflexivity.
Qed.

Lemma backoff_exponential_monotone_capped_witness :
  _calculate_backoff 7 = Z.min (30 * 2 ^ 7) 3600
  /\ (forall policy,
        _calculate_backoff 7 = spec_backoff policy 7
        <-> retry_delay policy = 30
            \/ (3600 <= 30 * 2 ^ 7 /\ 3600 <= retry_delay policy * 2 ^ 7))
  /\ _calculate_backoff 7 <= 3600
  /\ (forall later, 7 <= later -> _calculate_backoff 7 <= _calculate_backoff later)
  /\ map _calculate_backoff [0; 1; 2; 3; 4; 5; 6] = [30; 60; 120; 240; 480; 960; 1920]
  /\ _calculate_backoff 10 = 3600.
Proof. apply (backoff_exponential_monotone_capped 7). lia. Defined.

Lemma backoff_matches_http_policy (retry_count : Z) :
  0 <= retry_count ->
  _calculate_backoff retry_count = spec_backoff Scenario.http_policy retry_count.
Proof. intros Hnn. now apply backoff_agrees_iff; [|left]. Qed.

(** C1, as the claim has it: for the e-mail policy, whose retry delay is
    5 minutes, the first retry would wait 300 seconds; the code waits 30. *)
Lemma backoff_ignores_retry_delay : ~ backoff_follows_policy.
Proof.
  intros H. specialize (H Scenario.email_policy 0 (Z.le_refl 0)).
  vm_compute in H. discriminate H.
Qed.

End Backoff.

(** ** Routing *)

Section Routing.

Lemma first_match_loop_hit (pre post : list RoutingRule) (r : RoutingRule) (acc : list string) :
  Forall (fun q => RouteMessage._evaluate_condition q = false) pre ->
  RouteMessage._evaluate_condition r = true ->
  RouteMessage.first_match_loop (pre ++ r :: post) acc = acc ++ [destination r].
Proof.
  intros Hpre Hr. induction Hpre as [|q pre Hq _ IH]; simpl.
  - now rewrite Hr.
  - now rewrite Hq.
Qed.

Lemma first_match_loop_miss (rs : list RoutingRule) (acc : list string) :
  Forall (fun q => RouteMessage._evaluate_condition q = false) rs ->
  RouteMessage.first_match_loop rs acc = acc.
Proof.
  induction 1 as [|q rs Hq _ IH]; simpl; [reflexivity|]. now rewrite Hq.
Qed.

(** C4, as the code has it: under the first-match strategy the rules are
    tried in their configured order, whatever their priorities, and only the
    destination of the first matching rule is returned, the rules after it
    not being looked at (the fallback's destination, or nothing, when no
    rule matches). With the rules [priority>5 -> Q1; no condition -> Q2] a
    message of priority 1 resolves to [Q2]; with two rules that both
    match, the one configured first wins over the one of higher
    priority. *)
Theorem first_match_returns_first_matching_rule
    (message : pyvalue) (cfg : RoutingConfiguration) :
  strategy cfg = "first-match" ->
  (forall pre r post,
      rules cfg = pre ++ r :: post ->
      Forall (fun q => RouteMessage._evaluate_condition q = false) pre ->
      RouteMessage._evaluate_condition r = true ->
      RouteMessage.execute message cfg = [destination r])
  /\ (Forall (fun q => RouteMessage._evaluate_condition q = false) (rules cfg) ->
      RouteMessage.execute message cfg
      = match fallback cfg with Some fb => [destination fb] | None => [] end)
  /\ RouteMessage.execute (Scenario.message_priority 1) Scenario.first_match_config = ["Q2"].
Proof.
  intros Hs. unfold RouteMessage.execute at 1 2. rewrite Hs. simpl.
  split; [|split; [|reflexivity]].
  - intros pre r post Hr Hpre Hm.
    rewrite Hr, (first_match_loop_hit pre post r [] Hpre Hm). reflexivity.
  - intros Hnone. rewrite (first_match_loop_miss _ [] Hnone).
    now destruct (fallback cfg).
Qed.

Lemma first_match_returns_first_matching_rule_witness :
  RouteMessage.execute (Scenario.message_priority 1) Scenario.low_before_high_config
  = ["archive"]
  /\ RouteMessage.execute (Scenario.message_priority 1) Scenario.first_match_config = ["Q2"].
Proof.
  pose proof (first_match_returns_first_matching_rule
                (Scenario.message_priority 1) Scenario.low_before_high_config eq_refl) as H.
  split; [|apply H].
  apply (proj1 H [] Scenario.rule_low [Scenario.rule_high]).
  - reflexivity.
  - constructor.
  - reflexivity.
Defined.

(** C4, as the claim has it: the message of priority 10 does not resolve to
    [Q1]. *)
Lemma first_match_example_not_Q1 :
  RouteMessage.execute (Scenario.message_priority 10) Scenario.first_match_config <> ["Q1"].
Proof. discriminate. Qed.

(** The rule-list router reads a condition as a dotted path into the
    message: ["priority>5"] is looked up as a key, which the message does
    not have. *)
Example comparison_is_looked_up_as_a_key :
  RouteMessageRules._evaluate_condition (Some "priority>5") (Scenario.message_priority 10)
  = Ok false
  /\ RouteMessageRules.execute (Scenario.message_priority 10)
       [Scenario.rule_Q1; Scenario.rule_Q2] = Ok ["Q2"].
Proof. split; reflexivity. Qed.


Example condition_on_nested_path :
  RouteMessageRules._evaluate_condition (Some "user.active")
    (PyDict [("user", PyDict [("active", PyBool true)])]) = Ok true.
Proof. reflexivity. Qed.

Example condition_on_missing_path :
  RouteMessageRules._evaluate_condition (Some "user.name")
    (PyDict [("user", PyDict [("active", PyBool true)])]) = Ok false.
Proof. reflexivity. Qed.

Example condition_through_a_list :
  RouteMessageRules._evaluate_condition (Some "items.first")
    (PyDict [("items", PyList [PyInt 1])]) = Ok false.
Proof. reflexivity. Qed.

Example condition_without_truth_value :
  RouteMessageRules._evaluate_condition (Some "blob")
    (PyDict [("blob", PyObject None)]) = Ok false.
Proof. reflexivity. Qed.


End Routing.

(** ** Webhook ingestion *)

Section Ingestion.
Import Scenario.

Lemma dense_empty : ids_dense empty_repo.
Proof.
  intros k. unfold empty_repo; simpl. rewrite lookup_empty, map_size_empty.
  split; [intros [x Hx]; discriminate | lia].
Qed.

Lemma dense_fresh (repo : EventRepository) :
  ids_dense repo -> events repo !! (N.of_nat (size (events repo)) + 1)%N = None.
Proof.
  intros Hd. destruct (events repo !! _) eqn:E; [|reflexivity].
  assert (Hs : is_Some (events repo !! (N.of_nat (size (events repo)) + 1)%N)) by eauto.
  apply Hd in Hs. lia.
Qed.

Lemma record_received_size (repo : EventRepository) now wid hs body ct cid :
  ids_dense repo ->
  size (events (snd (record_received repo now wid hs body ct cid)))
  = S (size (events repo)).
Proof. intros Hd. simpl. apply map_size_insert_None, dense_fresh, Hd. Qed.

Lemma record_received_dense (repo : EventRepository) now wid hs body ct cid :
  ids_dense repo -> ids_dense (snd (record_received repo now wid hs body ct cid)).
Proof.
  intros Hd k. rewrite record_received_size by exact Hd. simpl.
  rewrite lookup_insert. case_decide as Hk.
  - subst k. split; [lia | eauto].
  - rewrite (Hd k). lia.
Qed.

(** What an accepted call does, given a valid id and key and a body. *)
Lemma execute_accepted (webhook_repo : gmap string Webhook) (repo : EventRepository)
    now wid key (request : WebhookRequest) (w : Webhook) (body : list byte) :
  webhook_repo !! wid = Some w ->
  webhook_key w = key ->
  ReceiveWebhook.raw_body_of request = Ok body ->
  ReceiveWebhook.execute webhook_repo repo now wid key request
  = Ok (Some {| response_id := fst (record_received repo now wid (headers request) body
                                      (content_type request) (correlation_id request));
                status := "accepted";
                resp_correlation_id := correlation_id request;
                timestamp := now |},
        snd (record_received repo now wid (headers request) body
               (content_type request) (correlation_id request))).
Proof.
  intros Hw Hk Hb. unfold ReceiveWebhook.execute.
  rewrite Hw, Hk, String.eqb_refl, Hb. reflexivity.
Qed.

(** C6: when the webhook id is unknown or the key differs from the stored
    one, the call is rejected ([None]) and the event store comes back
    unchanged: no event and no receipt is recorded; and a call is rejected
    only in these two cases. *)
Theorem rejected_call_leaves_store_unchanged
    (webhook_repo : gmap string Webhook) (event_repo : EventRepository)
    (now : Z) (webhook_id key : string) (request : WebhookRequest) :
  ((webhook_repo !! webhook_id = None
    \/ exists w, webhook_repo !! webhook_id = Some w /\ webhook_key w <> key)
   -> ReceiveWebhook.execute webhook_repo event_repo now webhook_id key request
      = Ok (None, event_repo))
  /\ (forall repo',
        ReceiveWebhook.execute webhook_repo event_repo now webhook_id key request
        = Ok (None, repo') ->
        repo' = event_repo
        /\ (webhook_repo !! webhook_id = None
            \/ exists w, webhook_repo !! webhook_id = Some w /\ webhook_key w <> key)).
Proof.
  unfold ReceiveWebhook.execute. split.
  - intros [Hn | (w & Hw & Hk)].
    + now rewrite Hn.
    + rewrite Hw. destruct (String.eqb_spec (webhook_key w) key); [contradiction | reflexivity].
  - intros repo'. destruct (webhook_repo !! webhook_id) as [w|] eqn:Hw.
    + destruct (String.eqb_spec (webhook_key w) key) as [Hk|Hk]; simpl.
      * destruct (ReceiveWebhook.raw_body_of request); simpl; discriminate.
      * intros H. inversion H. split; [reflexivity|]. right. eauto.
    + intros H. inversion H. split; [reflexivity|]. now left.
Qed.

Example rejected_wrong_key :
  ReceiveWebhook.execute webhooks empty_repo 0 "test-webhook" "wrong-key" binary_request
  = Ok (None, empty_repo).
Proof.
  apply (rejected_call_leaves_store_unchanged webhooks empty_repo 0).
  right. eexists. split; [reflexivity | discriminate].
Qed.

Example rejected_unknown_id :
  ReceiveWebhook.execute webhooks empty_repo 0 "unknown-webhook" "any-key" binary_request
  = Ok (None, empty_repo).
Proof.
  apply (rejected_call_leaves_store_unchanged webhooks empty_repo 0).
  left. reflexivity.
Qed.

(** Two accepted submissions of one request in a row. *)
Lemma two_submissions (webhook_repo : gmap string Webhook) (repo : EventRepository)
    now1 now2 wid key (request : WebhookRequest) (w : Webhook) (body : list byte) :
  ids_dense repo ->
  webhook_repo !! wid = Some w ->
  webhook_key w = key ->
  ReceiveWebhook.raw_body_of request = Ok body ->
  let rr1 := record_received repo now1 wid (headers request) body
               (content_type request) (correlation_id request) in
  let rr2 := record_received (snd rr1) now2 wid (headers request) body
               (content_type request) (correlation_id request) in
  ReceiveWebhook.execute webhook_repo repo now1 wid key request
    = Ok (Some (accepted (fst rr1) now1 request), snd rr1)
  /\ statuses (snd rr1) !! fst rr1 = Some "pending"
  /\ ReceiveWebhook.execute webhook_repo (snd rr1) now2 wid key request
     = Ok (Some (accepted (fst rr2) now2 request), snd rr2)
  /\ fst rr2 = (fst rr1 + 1)%N
  /\ fst rr2 <> fst rr1
  /\ size (events (snd rr2)) = S (S (size (events repo)))
  /\ events (snd rr2) !! fst rr1 = Some (received_at now1 wid request body)
  /\ events (snd rr2) !! fst rr2 = Some (received_at now2 wid request body).
Proof.
  intros Hd Hw Hk Hb rr1 rr2.
  assert (Hs1 : size (events (snd rr1)) = S (size (events repo)))
    by (apply record_received_size, Hd).
  assert (Hd1 : ids_dense (snd rr1)) by (apply record_received_dense, Hd).
  assert (Hs2 : size (events (snd rr2)) = S (size (events (snd rr1))))
    by (apply record_received_size, Hd1).
  assert (Hid1 : fst rr1 = (N.of_nat (size (events repo)) + 1)%N) by reflexivity.
  assert (Hid2 : fst rr2 = (N.of_nat (size (events (snd rr1))) + 1)%N) by reflexivity.
  assert (Hne : fst rr2 <> fst rr1) by (rewrite Hid1, Hid2, Hs1; lia).
  split; [exact (execute_accepted _ _ _ _ _ _ _ _ Hw Hk Hb)|].
  split; [apply lookup_insert_eq|].
  split; [exact (execute_accepted _ _ _ _ _ _ _ _ Hw Hk Hb)|].
  split; [rewrite Hid1, Hid2, Hs1; lia|].
  split; [exact Hne|].
  split; [rewrite Hs2, Hs1; reflexivity|].
  split.
  - change (events (snd rr2))
      with (<[fst rr2 := received_at now2 wid request body]> (events (snd rr1))).
    rewrite lookup_insert_ne by exact Hne. apply lookup_insert_eq.
  - apply lookup_insert_eq.
Qed.

(** C5, as the code has it: every accepted submission records an event of
    its own under a fresh response id. Submitting the same request twice,
    with the same correlation id and while the first event is still
    pending, is accepted twice: the second response id is the first plus
    one, and the store holds two events more than before, both carrying
    the request's correlation id and the same body. *)
Theorem resubmission_records_second_event
    (webhook_repo : gmap string Webhook) (event_repo : EventRepository)
    (now1 now2 : Z) (webhook_id key : string) (request : WebhookRequest)
    (w : Webhook) (body : list byte) :
  ids_dense event_repo ->
  webhook_repo !! webhook_id = Some w ->
  webhook_key w = key ->
  ReceiveWebhook.raw_body_of request = Ok body ->
  exists r1 repo1 r2 repo2 e1 e2,
    ReceiveWebhook.execute webhook_repo event_repo now1 webhook_id key request
      = Ok (Some r1, repo1)
    /\ statuses repo1 !! response_id r1 = Some "pending"
    /\ ReceiveWebhook.execute webhook_repo repo1 now2 webhook_id key request
       = Ok (Some r2, repo2)
    /\ response_id r2 = (response_id r1 + 1)%N
    /\ response_id r2 <> response_id r1
    /\ size (events repo2) = S (S (size (events event_repo)))
    /\ events repo2 !! response_id r1 = Some e1
    /\ events repo2 !! response_id r2 = Some e2
    /\ rec_correlation_id e1 = correlation_id request
    /\ rec_correlation_id e2 = correlation_id request
    /\ rec_raw_body e1 = body /\ rec_raw_body e2 = body.
Proof.
  intros Hd Hw Hk Hb.
  destruct (two_submissions webhook_repo event_repo now1 now2 webhook_id key request
              w body Hd Hw Hk Hb) as (E1 & Hp & E2 & Hnext & Hne & Hsz & He1 & He2).
  eexists _, _, _, _, _, _.
  split; [exact E1|]. split; [exact Hp|]. split; [exact E2|].
  split; [exact Hnext|].
  split; [exact Hne|].
  split; [exact Hsz|]. split; [exact He1|]. split; [exact He2|].
  repeat split.
Qed.

Lemma resubmission_records_second_event_witness :
  exists r1 repo1 r2 repo2 e1 e2,
    ReceiveWebhook.execute webhooks empty_repo 10 "test-webhook" "test-key" binary_request
      = Ok (Some r1, repo1)
    /\ statuses repo1 !! response_id r1 = Some "pending"
    /\ ReceiveWebhook.execute webhooks repo1 20 "test-webhook" "test-key" binary_request
       = Ok (Some r2, repo2)
    /\ response_id r2 = (response_id r1 + 1)%N
    /\ response_id r2 <> response_id r1
    /\ size (events repo2) = S (S (size (events empty_repo)))
    /\ events repo2 !! response_id r1 = Some e1
    /\ events repo2 !! response_id r2 = Some e2
    /\ rec_correlation_id e1 = correlation_id binary_request
    /\ rec_correlation_id e2 = correlation_id binary_request
    /\ rec_raw_body e1 = encode_utf8 "binary test data"
    /\ rec_raw_body e2 = encode_utf8 "binary test data".
Proof.
  apply (resubmission_records_second_event webhooks empty_repo 10 20
           "test-webhook" "test-key" binary_request
           {| webhook_id := "test-webhook"; webhook_key := "test-key";
              webhook_config := []; enabled := true |}
           (encode_utf8 "binary test data")).
  - exact dense_empty.
  - reflexivity.
  - reflexivity.
  - reflexivity.
Defined.

(** C5, as the claim has it: the second submission does not return the first
    response id. *)
Lemma resubmission_not_idempotent :
  ~ resubmission_is_idempotent webhooks empty_repo 10 20
      "test-webhook" "test-key" binary_request.
Proof.
  intros H.
  destruct (two_submissions webhooks empty_repo 10 20
              "test-webhook" "test-key" binary_request
              {| webhook_id := "test-webhook"; webhook_key := "test-key";
                 webhook_config := []; enabled := true |}
              (encode_utf8 "binary test data") dense_empty eq_refl eq_refl eq_refl)
    as (E1 & Hp & E2 & _ & Hne & _).
  destruct (H _ _ E1 Hp) as (r2' & E2' & Hsame).
  rewrite E2 in E2'.
  pose proof (f_equal (fun x => match x with
                                | Ok (Some r, _) => response_id r
                                | _ => 0%N
                                end) E2') as Hr.
  exact (Hne (eq_trans Hr Hsame)).
Qed.

End Ingestion.

(** ** The size limit of a webhook body *)

Section BodySize.
Import Scenario.

Lemma validate_data_size_spec (v : option (list byte)) :
  (validate_data_size v = Ok v /\ forall b, v = Some b -> len b <= 1000000)
  \/ (validate_data_size v = Raise (ValueError "Data exceeds 1MB size limit")
      /\ exists b, v = Some b /\ 1000000 < len b).
Proof.
  destruct v as [b|]; simpl; [|left; split; [reflexivity | discriminate]].
  destruct b as [|x b].
  - left. split; [reflexivity|]. intros b [= <-]. unfold len. simpl. lia.
  - rewrite andb_true_l, Z.gtb_ltb.
    destruct (Z.ltb_spec 1000000 (len (x :: b))) as [Hgt|Hle].
    + right. split; [reflexivity | eauto].
    + left. split; [reflexivity|]. intros b' [= <-]. exact Hle.
Qed.

Lemma encode_utf8_app (s1 s2 : string) :
  encode_utf8 (s1 +:+ s2) = encode_utf8 s1 ++ encode_utf8 s2.
Proof.
  induction s1 as [|a s1 IH]; simpl; [reflexivity|].
  now rewrite IH, app_assoc.
Qed.

Lemma json_escape_replicate_x (n : nat) :
  json_escape (replicate_char n "x") = replicate_char n "x".
Proof. induction n as [|n IH]; simpl; [reflexivity|]. now rewrite IH. Qed.

Lemma length_encode_replicate_x (n : nat) :
  length (encode_utf8 (replicate_char n "x")) = n.
Proof. induction n as [|n IH]; simpl; [reflexivity|]. now rewrite IH. Qed.

Lemma length_encode_app (s1 s2 : string) :
  length (encode_utf8 (s1 +:+ s2))
  = (length (encode_utf8 s1) + length (encode_utf8 s2))%nat.
Proof. now rewrite encode_utf8_app, length_app. Qed.

Lemma length_encode_quote (s : string) :
  length (encode_utf8 (json_quote s)) = S (S (length (encode_utf8 (json_escape s)))).
Proof.
  unfold json_quote.
  change (String dquote (json_escape s +:+ String dquote ""))
    with (String dquote "" +:+ (json_escape s +:+ String dquote "")).
  rewrite !length_encode_app.
  change (length (encode_utf8 (String dquote ""))) with 1%nat. lia.
Qed.

(** The body of the JSON request with [n] letters has [n + 12] bytes. *)
Lemma json_body (n : nat) :
  exists body, ReceiveWebhook.raw_body_of (json_request n) = Ok body
               /\ len body = Z.of_nat n + 12.
Proof.
  exists (encode_utf8 ("{" +:+ (json_quote "data" +:+ ": "
                                +:+ json_quote (replicate_char n "x")) +:+ "}")).
  split; [reflexivity|].
  unfold len. rewrite !length_encode_app, !length_encode_quote.
  rewrite json_escape_replicate_x, length_encode_replicate_x.
  change (length (encode_utf8 "{")) with 1%nat.
  change (length (encode_utf8 "}")) with 1%nat.
  change (length (encode_utf8 ": ")) with 2%nat.
  change (length (encode_utf8 (json_escape "data"))) with 4%nat.
  lia.
Qed.

(** A JSON submission of [n] letters passes the size check, which reads
    [raw_data] alone, and is accepted; its body is stored as it is. *)
Lemma json_submission_stored (now : Z) (n : nat) :
  exists body,
    ReceiveWebhook.raw_body_of (json_request n) = Ok body
    /\ len body = Z.of_nat n + 12
    /\ validate_data_size (raw_data (json_request n)) = Ok None
    /\ ReceiveWebhook.execute webhooks empty_repo now "test-webhook" "test-key"
         (json_request n)
       = Ok (Some (accepted 1 now (json_request n)),
             {| events := {[ 1%N := received_at now "test-webhook" (json_request n) body ]};
                statuses := {[ 1%N := "pending" ]} |}).
Proof.
  destruct (json_body n) as (body & Hb & Hl).
  exists body. split; [exact Hb|]. split; [exact Hl|]. split; [reflexivity|].
  exact (execute_accepted webhooks empty_repo now "test-webhook" "test-key"
           (json_request n) _ body eq_refl eq_refl Hb).
Qed.

(** C8, on the code: a JSON payload of a million letters serialises to a
    body of 1,000,012 bytes; the request passes the size check, which
    reads [raw_data] only, the call is accepted and the body is stored
    whole as event 1. The same bytes sent as [raw_data] are refused by the
    check. *)
Theorem oversized_json_payload_is_stored :
  exists body repo',
    ReceiveWebhook.raw_body_of (json_request (Z.to_nat 1000000)) = Ok body
    /\ len body = 1000012
    /\ validate_data_size (raw_data (json_request (Z.to_nat 1000000))) = Ok None
    /\ ReceiveWebhook.execute webhooks empty_repo 0 "test-webhook" "test-key"
         (json_request (Z.to_nat 1000000))
       = Ok (Some (accepted 1 0 (json_request (Z.to_nat 1000000))), repo')
    /\ (exists rcd, events repo' !! 1%N = Some rcd
                    /\ rec_raw_body rcd = body
                    /\ 1000000 < len (rec_raw_body rcd))
    /\ validate_data_size (Some body) = Raise (ValueError "Data exceeds 1MB size limit").
Proof.
  destruct (json_submission_stored 0 (Z.to_nat 1000000)) as (body & Hb & Hl & Hv & He).
  assert (Hlen : len body = 1000012) by (rewrite Hl; lia).
  exists body. eexists.
  split; [exact Hb|]. split; [exact Hlen|]. split; [exact Hv|]. split; [exact He|].
  split.
  - eexists. split; [apply lookup_insert_eq|]. split; [reflexivity|].
    cbn [rec_raw_body received_at]. lia.
  - destruct (validate_data_size_spec (Some body)) as [[_ Hle]|[E _]]; [|exact E].
    specialize (Hle body eq_refl). lia.
Qed.

End BodySize.

(** ** Retry decisions *)

Section RetryDecision.
Import Scenario.

Example streaming_policy_is_valid :
  new_DeliveryPolicy _STREAMING (Some 0) 30 None = Ok streaming_policy.
Proof. reflexivity. Qed.

(** C2, as the code has it: after a failure the queue processor schedules
    a retry if and only if the event's retry count is below the fixed
    limit of 3, and otherwise stores the failure as the event's result, the
    event staying failed; the retry use case passes over an event as out of
    attempts if and only if its retry count has reached the [max_retries]
    it was called with, and leaves an event below that limit alone until
    its backoff has elapsed. The policy of the owning action (its semantic, its
    [max_retries], its expiry) takes no part in either decision. *)
Theorem retry_allowed_iff_count_below_limit
    (env : Collaborators) (now : Z) (event : Event) (error : option string)
    (calls : list RepoCall) :
  let r := ProcessEventQueue._handle_failure env now event error calls in
  (fst r = true <-> get_retry_count env (event_id event) < 3)
  /\ (fst r = true ->
      snd r = calls ++ [update_status (event_id event) "failed" now error None;
                        schedule_retry (event_id event)])
  /\ (fst r = false ->
      snd r = calls ++ [update_status (event_id event) "failed" now error None;
                        store_result (event_id event) false None error])
  /\ (forall max_retries stats,
        (RetryFailedEvents.max_attempts
           (fst (RetryFailedEvents.retry_event env now max_retries (stats, calls) event))
         = RetryFailedEvents.max_attempts stats + 1
         <-> max_retries <= get_retry_count env (event_id event))
        /\ (max_retries <= get_retry_count env (event_id event) ->
            snd (RetryFailedEvents.retry_event env now max_retries (stats, calls) event)
            = calls)
        /\ (get_retry_count env (event_id event) < max_retries ->
            RetryFailedEvents._should_retry_now now event
              (RetryFailedEvents._calculate_backoff (get_retry_count env (event_id event)))
            = false ->
            RetryFailedEvents.retry_event env now max_retries (stats, calls) event
            = (stats, calls))).
Proof.
  unfold ProcessEventQueue._handle_failure. cbv zeta.
  destruct (Z.ltb_spec (get_retry_count env (event_id event)) 3) as [Hlt|Hge]; simpl.
  - split; [tauto|]. split; [intros _; now rewrite <- app_assoc|].
    split; [discriminate|]. intros max_retries stats.
    unfold RetryFailedEvents.retry_event.
    destruct (Z.leb_spec max_retries (get_retry_count env (event_id event))); simpl.
    + split; [tauto|]. split; [reflexivity | lia].
    + split; [|split; [lia | intros _ ->; reflexivity]]. split; [|lia].
      destruct (negb _); simpl; [lia|].
      destruct (actions env !! action_id event); simpl; [|lia].
      destruct (action_execute env _ _) as [res|e]; simpl; [|lia].
      destruct (success res); simpl; lia.
  - split; [split; [discriminate | lia]|]. split; [discriminate|].
    split; [intros _; now rewrite <- app_assoc|]. intros max_retries stats.
    unfold RetryFailedEvents.retry_event.
    destruct (Z.leb_spec max_retries (get_retry_count env (event_id event))); simpl.
    + split; [tauto|]. split; [reflexivity | lia].
    + split; [|split; [lia | intros _ ->; reflexivity]]. split; [|lia].
      destruct (negb _); simpl; [lia|].
      destruct (actions env !! action_id event); simpl; [|lia].
      destruct (action_execute env _ _) as [res|e]; simpl; [|lia].
      destruct (success res); simpl; lia.
Qed.

(** C2, as the claim has it: for an event of an action whose policy
    forbids retries, the queue processor still schedules one. *)
Lemma retry_decision_ignores_policy :
  ~ retry_decision_follows_policy env_stream 2000 event1 stream_action.
Proof.
  intros H.
  assert (Ha : actions env_stream !! action_id event1 = Some stream_action) by reflexivity.
  specialize (H Ha (Some "connection reset") []).
  vm_compute in H. discriminate H.
Qed.

(** Whatever the environment, an event whose action is missing and whose
    retry count is below 3 gets a retry scheduled by the queue processor. *)
Lemma missing_action_retry_scheduled (env : Collaborators) (now : Z)
    (stats : ProcessEventQueue.Stats) (calls : list RepoCall) (event : Event) :
  actions env !! action_id event = None ->
  get_retry_count env (event_id event) < 3 ->
  ProcessEventQueue.process_event env now (stats, calls) event
  = ({| ProcessEventQueue.processed := ProcessEventQueue.processed stats;
        ProcessEventQueue.succeeded := ProcessEventQueue.succeeded stats;
        ProcessEventQueue.failed := ProcessEventQueue.failed stats + 1;
        ProcessEventQueue.retry_scheduled := ProcessEventQueue.retry_scheduled stats |},
     calls ++ [update_status (event_id event) "failed" now (Some "Action not found") None;
               schedule_retry (event_id event)]).
Proof.
  intros Ha Hlt. unfold ProcessEventQueue.process_event, ProcessEventQueue._handle_failure.
  rewrite Ha. destruct (Z.ltb_spec (get_retry_count env (event_id event)) 3); [|lia].
  now rewrite <- app_assoc.
Qed.

(** C7, on the code: a pending event whose action is not in the repository
    is counted as failed by the queue processor, yet a retry is scheduled
    for it; the retry use case, on the same event, records a permanent
    failure and schedules nothing. *)
Theorem missing_action_gets_retry_scheduled :
  ProcessEventQueue.execute env_no_action 2000 100 []
  = ({| ProcessEventQueue.processed := 0; ProcessEventQueue.succeeded := 0;
        ProcessEventQueue.failed := 1; ProcessEventQueue.retry_scheduled := 0 |},
     [update_status "evt-1" "failed" 2000 (Some "Action not found") None;
      schedule_retry "evt-1"])
  /\ RetryFailedEvents.execute env_no_action 2000 3 50 []
     = ({| RetryFailedEvents.retried := 0; RetryFailedEvents.succeeded := 0;
           RetryFailedEvents.failed := 1; RetryFailedEvents.max_attempts := 0 |},
        [update_status "evt-1" "failed" 2000 (Some "Action not found") None;
         store_result "evt-1" false None (Some "Action not found")]).
Proof. split; reflexivity. Qed.

End RetryDecision.

(** ** Routing strategies *)

Section RoutingStrategies.

Lemma first_match_loop_find (rs : list RoutingRule) (acc : list string) :
  RouteMessage.first_match_loop rs acc
  = acc ++ match List.find RouteMessage._evaluate_condition rs with
           | Some r => [destination r]
           | None => []
           end.
Proof.
  induction rs as [|q rs IH]; simpl.
  - now rewrite app_nil_r.
  - destruct (RouteMessage._evaluate_condition q); [reflexivity | exact IH].
Qed.

Lemma all_matching_loop_filter (rs : list RoutingRule) (acc : list string) :
  RouteMessage.all_matching_loop rs acc
  = acc ++ map destination (List.filter RouteMessage._evaluate_condition rs).
Proof.
  revert acc. induction rs as [|q rs IH]; intros acc; simpl.
  - now rewrite app_nil_r.
  - destruct (RouteMessage._evaluate_condition q); simpl.
    + now rewrite IH, <- app_assoc.
    + apply IH.
Qed.

Lemma insert_by_priority_perm (r : RoutingRule) (l : list RoutingRule) :
  insert_by_priority r l ≡ₚ r :: l.
Proof.
  induction l as [|h t IH]; simpl; [reflexivity|].
  destruct (priority h <=? priority r); [reflexivity|].
  rewrite IH. apply Permutation_swap.
Qed.

Lemma sorted_by_priority_perm (l : list RoutingRule) : sorted_by_priority l ≡ₚ l.
Proof.
  induction l as [|r l IH]; simpl; [reflexivity|].
  now rewrite insert_by_priority_perm, IH.
Qed.

Lemma insert_by_priority_sorted (r : RoutingRule) (l : list RoutingRule) :
  StronglySorted priority_ge l -> StronglySorted priority_ge (insert_by_priority r l).
Proof.
  induction 1 as [|h t Hs IH Hall]; simpl.
  - repeat constructor.
  - destruct (Z.leb_spec (priority h) (priority r)) as [Hle|Hgt].
    + constructor; [now constructor|].
      constructor; [exact Hle|].
      eapply Forall_impl; [exact Hall|]. unfold priority_ge. simpl. intros; lia.
    + constructor; [exact IH|].
      rewrite insert_by_priority_perm. constructor; [unfold priority_ge; lia | exact Hall].
Qed.

Lemma sorted_by_priority_sorted (l : list RoutingRule) :
  StronglySorted priority_ge (sorted_by_priority l).
Proof.
  induction l as [|r l IH]; simpl; [constructor|].
  now apply insert_by_priority_sorted.
Qed.

Lemma find_some_in {A : Type} (p : A -> bool) (l : list A) (x : A) :
  List.find p l = Some x -> In x l /\ p x = true.
Proof. apply find_some. Qed.

(** The first match of a sorted list after one more rule is inserted. *)
Lemma find_insert_by_priority (p : RoutingRule -> bool) (r : RoutingRule)
    (l : list RoutingRule) :
  StronglySorted priority_ge l ->
  List.find p (insert_by_priority r l)
  = match List.find p l with
    | Some h => if priority r <? priority h then Some h
                else if p r then Some r else Some h
    | None => if p r then Some r else None
    end.
Proof.
  induction 1 as [|h t Hs IH Hall]; simpl; [reflexivity|].
  destruct (Z.leb_spec (priority h) (priority r)) as [Hle|Hgt]; simpl.
  - destruct (p r) eqn:Hr.
    + destruct (p h); [destruct (Z.ltb_spec (priority r) (priority h)); [lia | reflexivity]|].
      destruct (List.find p t) as [x|] eqn:Hf; [|reflexivity].
      apply find_some_in in Hf as [Hin _].
      rewrite Forall_forall in Hall. specialize (Hall x ltac:(now apply list_elem_of_In)).
      unfold priority_ge in Hall.
      destruct (Z.ltb_spec (priority r) (priority x)); [lia | reflexivity].
    + destruct (p h); [now destruct (priority r <? priority h)|].
      destruct (List.find p t); [now destruct (priority r <? _) | reflexivity].
  - destruct (p h) eqn:Hh.
    + destruct (Z.ltb_spec (priority r) (priority h)); [reflexivity | lia].
    + exact IH.
Qed.

(** The rule a priority-ordered first match selects, read off the rules in
    their configured order. *)
Lemma find_sorted_selects (p : RoutingRule -> bool) (pre post : list RoutingRule)
    (r : RoutingRule) :
  p r = true ->
  (forall q, In q pre -> p q = true -> priority q < priority r) ->
  (forall q, In q post -> p q = true -> priority q <= priority r) ->
  List.find p (sorted_by_priority (pre ++ r :: post)) = Some r.
Proof.
  intros Hr Hpre Hpost. induction pre as [|q pre IH]; simpl.
  - rewrite find_insert_by_priority by apply sorted_by_priority_sorted. rewrite Hr.
    destruct (List.find p (sorted_by_priority post)) as [h|] eqn:Hf; [|reflexivity].
    apply find_some_in in Hf as [Hin Hp].
    assert (In h post).
    { apply list_elem_of_In. rewrite <- (sorted_by_priority_perm post).
      now apply list_elem_of_In. }
    specialize (Hpost h H Hp).
    destruct (Z.ltb_spec (priority r) (priority h)); [lia | reflexivity].
  - rewrite find_insert_by_priority by apply sorted_by_priority_sorted.
    rewrite IH by (intros; apply Hpre; [now right | assumption]).
    destruct (Z.ltb_spec (priority q) (priority r)); [reflexivity|].
    destruct (p q) eqn:Hq; [|reflexivity].
    specialize (Hpre q (or_introl eq_refl) Hq). lia.
Qed.

(** X1: under the all-matching strategy the result lists the destination
    of every matching rule, once per rule and in configured order; the
    fallback's destination is returned alone when no rule matches. *)
Theorem all_matching_returns_every_match
    (message : pyvalue) (cfg : RoutingConfiguration) :
  strategy cfg = "all-matching" ->
  let hits := map destination (List.filter RouteMessage._evaluate_condition (rules cfg)) in
  (hits <> [] -> RouteMessage.execute message cfg = hits)
  /\ (hits = [] ->
      RouteMessage.execute message cfg
      = match fallback cfg with Some fb => [destination fb] | None => [] end)
  /\ (length (RouteMessage.execute message cfg) <= S (length (rules cfg)))%nat.
Proof.
  intros Hs hits. unfold RouteMessage.execute. rewrite Hs. simpl.
  rewrite all_matching_loop_filter. simpl. fold hits.
  assert (Hlen : (length hits <= length (rules cfg))%nat).
  { unfold hits. rewrite length_map. apply filter_length_le. }
  destruct hits as [|d ds] eqn:E.
  - split; [congruence|]. split; [intros _; now destruct (fallback cfg)|].
    destruct (fallback cfg); simpl; lia.
  - split; [reflexivity|]. split; [discriminate|]. simpl in *. lia.
Qed.

Lemma all_matching_returns_every_match_witness :
  RouteMessage.execute (PyDict [])
    {| rules := [Scenario.rule_Q2; Scenario.rule_Q1; Scenario.rule_Q2];
       strategy := "all-matching"; fallback := Some Scenario.rule_Q1;
       routing_description := None |} = ["Q2"; "Q2"].
Proof.
  apply (all_matching_returns_every_match (PyDict [])
           {| rules := [Scenario.rule_Q2; Scenario.rule_Q1; Scenario.rule_Q2];
              strategy := "all-matching"; fallback := Some Scenario.rule_Q1;
              routing_description := None |} eq_refl).
  discriminate.
Defined.

(** X2: under the priority strategy exactly one destination is returned,
    that of the matching rule of highest priority; between matching rules
    of equal priority the one configured first wins. *)
Theorem priority_strategy_selects_highest_match
    (message : pyvalue) (cfg : RoutingConfiguration)
    (pre post : list RoutingRule) (r : RoutingRule) :
  strategy cfg = "priority" ->
  rules cfg = pre ++ r :: post ->
  RouteMessage._evaluate_condition r = true ->
  (forall q, In q pre -> RouteMessage._evaluate_condition q = true ->
             priority q < priority r) ->
  (forall q, In q post -> RouteMessage._evaluate_condition q = true ->
             priority q <= priority r) ->
  RouteMessage.execute message cfg = [destination r].
Proof.
  intros Hs Hr Hm Hpre Hpost. unfold RouteMessage.execute. rewrite Hs. simpl.
  rewrite first_match_loop_find, Hr.
  now rewrite (find_sorted_selects _ pre post r Hm Hpre Hpost).
Qed.

Lemma priority_strategy_selects_highest_match_witness :
  RouteMessage.execute (PyDict [])
    {| rules := [ {| rule_name := "normal"; destination := "queue-2"; condition := None;
                     priority := 5; config := []; rule_description := None |};
                  {| rule_name := "urgent"; destination := "queue-1"; condition := None;
                     priority := 10; config := []; rule_description := None |};
                  {| rule_name := "also-urgent"; destination := "queue-3"; condition := None;
                     priority := 10; config := []; rule_description := None |} ];
       strategy := "priority"; fallback := None; routing_description := None |}
  = ["queue-1"].
Proof.
  apply (priority_strategy_selects_highest_match (PyDict []) _
           [ {| rule_name := "normal"; destination := "queue-2"; condition := None;
                priority := 5; config := []; rule_description := None |} ]
           [ {| rule_name := "also-urgent"; destination := "queue-3"; condition := None;
                priority := 10; config := []; rule_description := None |} ]
           {| rule_name := "urgent"; destination := "queue-1"; condition := None;
              priority := 10; config := []; rule_description := None |}).
  - reflexivity.
  - reflexivity.
  - reflexivity.
  - intros q [<-|[]] _. simpl. lia.
  - intros q [<-|[]] _. simpl. lia.
Defined.

End RoutingStrategies.

Section RoutingResults.

Lemma find_none_iff {A : Type} (p : A -> bool) (l : list A) :
  List.find p l = None <-> forall x, In x l -> p x = false.
Proof.
  split; [apply find_none|].
  induction l as [|a l IH]; simpl; intros H; [reflexivity|].
  rewrite (H a (or_introl eq_refl)). apply IH. intros x Hx. apply H. now right.
Qed.

Lemma filter_nil_iff {A : Type} (p : A -> bool) (l : list A) :
  List.filter p l = [] <-> forall x, In x l -> p x = false.
Proof.
  induction l as [|a l IH]; simpl.
  - split; [intros _ x [] | reflexivity].
  - destruct (p a) eqn:Ha; split.
    + discriminate.
    + intros H. specialize (H a (or_introl eq_refl)). congruence.
    + intros H x [<-|Hx]; [exact Ha | now apply IH].
    + intros H. apply IH. intros x Hx. apply H. now right.
Qed.

Lemma in_sorted_by_priority (r : RoutingRule) (l : list RoutingRule) :
  In r (sorted_by_priority l) <-> In r l.
Proof.
  rewrite <- !list_elem_of_In. now rewrite sorted_by_priority_perm.
Qed.

(** What [execute] selects before it turns to the fallback. *)
Lemma execute_selected (message : pyvalue) (cfg : RoutingConfiguration) :
  exists sel,
    RouteMessage.execute message cfg
    = match sel, fallback cfg with
      | [], Some fb => [destination fb]
      | _, _ => sel
      end
    /\ (forall d, In d sel ->
          exists r, In r (rules cfg) /\ RouteMessage._evaluate_condition r = true
                    /\ destination r = d)
    /\ (sel = [] <->
          str_in (strategy cfg) ["first-match"; "all-matching"; "priority"] = false
          \/ forall r, In r (rules cfg) -> RouteMessage._evaluate_condition r = false)
    /\ (strategy cfg = "first-match" \/ strategy cfg = "priority" -> (length sel <= 1)%nat).
Proof.
  unfold RouteMessage.execute.
  destruct (String.eqb_spec (strategy cfg) "first-match") as [E1|N1].
  { exists (match List.find RouteMessage._evaluate_condition (rules cfg) with
            | Some r => [destination r]
            | None => []
            end).
    split; [rewrite first_match_loop_find; simpl;
            now destruct (List.find _ _), (fallback cfg)|]. rewrite E1.
    destruct (List.find _ (rules cfg)) as [r|] eqn:Hf.
    - apply find_some_in in Hf as [Hin Hp].
      split; [intros d [<-|[]]; eauto|]. split; [|simpl; lia].
      split; [discriminate|]. intros [H|H]; [discriminate H|].
      rewrite (H r Hin) in Hp. discriminate.
    - split; [intros d []|]. split; [|simpl; lia].
      split; [intros _; right; now apply find_none_iff | reflexivity]. }
  destruct (String.eqb_spec (strategy cfg) "all-matching") as [E2|N2].
  { exists (map destination (List.filter RouteMessage._evaluate_condition (rules cfg))).
    split; [rewrite all_matching_loop_filter; simpl;
            now destruct (map _ _), (fallback cfg)|]. rewrite E2. split; [|split].
    - intros d Hd. apply in_map_iff in Hd as (r & <- & Hr).
      apply filter_In in Hr as [Hin Hp]. eauto.
    - rewrite <- filter_nil_iff. split.
      + intros H. right. now destruct (List.filter _ _).
      + intros [H|H]; [discriminate H | now rewrite H].
    - intros [H|H]; discriminate H. }
  destruct (String.eqb_spec (strategy cfg) "priority") as [E3|N3].
  { exists (match List.find RouteMessage._evaluate_condition
                    (sorted_by_priority (rules cfg)) with
            | Some r => [destination r]
            | None => []
            end).
    split; [rewrite first_match_loop_find; simpl;
            now destruct (List.find _ _), (fallback cfg)|]. rewrite E3.
    destruct (List.find _ (sorted_by_priority (rules cfg))) as [r|] eqn:Hf.
    - apply find_some_in in Hf as [Hin Hp].
      apply (proj1 (in_sorted_by_priority _ _)) in Hin.
      split; [intros d [<-|[]]; eauto|]. split; [|simpl; lia].
      split; [discriminate|]. intros [H|H]; [discriminate H|].
      rewrite (H r Hin) in Hp. discriminate.
    - split; [intros d []|]. split; [|simpl; lia].
      split; [|reflexivity]. intros _. right. intros r Hr.
      apply (proj1 (find_none_iff _ _) Hf). now apply in_sorted_by_priority. }
  exists []. split; [now destruct (fallback cfg)|]. split; [intros d []|]. split; [|simpl; lia].
  split; [|reflexivity]. intros _. left. unfold str_in. simpl.
  destruct (String.eqb_spec (strategy cfg) "first-match"); [contradiction|].
  destruct (String.eqb_spec (strategy cfg) "all-matching"); [contradiction|].
  destruct (String.eqb_spec (strategy cfg) "priority"); [contradiction|]. reflexivity.
Qed.

(** X3: whatever the strategy, every destination returned is that of a
    matching rule of the configuration or of its fallback; the result is
    empty exactly when there is no fallback and either the strategy is none
    of the three known ones or no rule matches; and the first-match and
    priority strategies return at most one destination. *)
Theorem routing_result_sound_and_fallback
    (message : pyvalue) (cfg : RoutingConfiguration) :
  (forall d, In d (RouteMessage.execute message cfg) ->
     (exists r, In r (rules cfg) /\ RouteMessage._evaluate_condition r = true
                /\ destination r = d)
     \/ (exists fb, fallback cfg = Some fb /\ destination fb = d))
  /\ (RouteMessage.execute message cfg = [] <->
        fallback cfg = None
        /\ (str_in (strategy cfg) ["first-match"; "all-matching"; "priority"] = false
            \/ forall r, In r (rules cfg) -> RouteMessage._evaluate_condition r = false))
  /\ (strategy cfg = "first-match" \/ strategy cfg = "priority" ->
      (length (RouteMessage.execute message cfg) <= 1)%nat).
Proof.
  destruct (execute_selected message cfg) as (sel & -> & Hsound & Hnil & Hone).
  split; [|split].
  - intros d Hd. destruct sel as [|x sel].
    + destruct (fallback cfg) as [fb|]; [|destruct Hd].
      destruct Hd as [<-|[]]. right. eauto.
    + left. now apply Hsound.
  - rewrite <- Hnil. destruct sel as [|x sel], (fallback cfg) as [fb|]; split;
      try discriminate; try tauto; intros [H1 H2]; discriminate.
  - intros Hs. specialize (Hone Hs).
    destruct sel as [|x sel]; [destruct (fallback cfg); simpl; lia | exact Hone].
Qed.

Lemma action_exists_spec (repo : gmap string Action) (d : string) :
  ValidateRouting.action_exists repo d = true <-> is_Some (repo !! d).
Proof.
  unfold ValidateRouting.action_exists. destruct (repo !! d); split; eauto.
  - discriminate.
  - intros [x Hx]. discriminate.
Qed.

Lemma validate_routing_inv (repo : gmap string Action) (cfg : RoutingConfiguration) :
  ValidateRouting.execute repo cfg = true ->
  rules cfg <> []
  /\ (forall r, In r (rules cfg) -> is_Some (repo !! destination r))
  /\ str_in (strategy cfg) ["first-match"; "all-matching"; "priority"] = true
  /\ (forall fb, fallback cfg = Some fb -> is_Some (repo !! destination fb)).
Proof.
  unfold ValidateRouting.execute. intros H.
  remember (str_in (strategy cfg) ["first-match"; "all-matching"; "priority"])
    as known eqn:Hs in *.
  destruct (rules cfg) as [|r0 rs] eqn:Er; [discriminate|]. rewrite <- Er in *.
  destruct (forallb _ (rules cfg)) eqn:Hall; simpl in H; [|discriminate].
  destruct known; simpl in H; [|discriminate].
  split; [rewrite Er; discriminate|]. split; [|split; [reflexivity|]].
  - intros r Hr. rewrite forallb_forall in Hall. apply action_exists_spec, Hall, Hr.
  - intros fb Hfb. rewrite Hfb in H. apply action_exists_spec.
    now destruct (ValidateRouting.action_exists repo (destination fb)).
Qed.

(** X4: a configuration that [ValidateRouting] accepts has at least one
    rule and a known strategy, and routing any message by it yields only
    destinations that are actions of the repository. *)
Theorem validated_routing_reaches_existing_actions
    (repo : gmap string Action) (cfg : RoutingConfiguration) :
  ValidateRouting.execute repo cfg = true ->
  rules cfg <> []
  /\ (strategy cfg = "first-match" \/ strategy cfg = "all-matching"
      \/ strategy cfg = "priority")
  /\ forall message d,
       In d (RouteMessage.execute message cfg) -> is_Some (repo !! d).
Proof.
  intros Hv. destruct (validate_routing_inv repo cfg Hv) as (Hne & Hrules & Hs & Hfb).
  split; [exact Hne|]. split.
  - unfold str_in in Hs. simpl in Hs.
    destruct (String.eqb_spec (strategy cfg) "first-match"); [now left|].
    destruct (String.eqb_spec (strategy cfg) "all-matching"); [now right; left|].
    destruct (String.eqb_spec (strategy cfg) "priority"); [now right; right|].
    discriminate.
  - intros message d Hd.
    destruct (execute_selected message cfg) as (sel & E & Hsound & _).
    rewrite E in Hd. destruct sel as [|x sel].
    + destruct (fallback cfg) as [fb|] eqn:Ef; [|destruct Hd].
      destruct Hd as [<-|[]]. now apply Hfb.
    + destruct (Hsound d Hd) as (r & Hin & _ & <-). now apply Hrules.
Qed.

Lemma validated_routing_reaches_existing_actions_witness :
  [ {| rule_name := "to-stream"; destination := "act-1"; condition := None;
       priority := 0; config := []; rule_description := None |} ] <> []
  /\ ("first-match" = "first-match" \/ "first-match" = "all-matching"
      \/ "first-match" = "priority")
  /\ forall message d,
       In d (RouteMessage.execute message
               {| rules := [ {| rule_name := "to-stream"; destination := "act-1";
                                condition := None; priority := 0; config := [];
                                rule_description := None |} ];
                  strategy := "first-match"; fallback := None;
                  routing_description := None |}) ->
       is_Some (actions Scenario.env_stream !! d).
Proof.
  apply (validated_routing_reaches_existing_actions (actions Scenario.env_stream)
           {| rules := [ {| rule_name := "to-stream"; destination := "act-1";
                            condition := None; priority := 0; config := [];
                            rule_description := None |} ];
              strategy := "first-match"; fallback := None;
              routing_description := None |}).
  reflexivity.
Defined.

End RoutingResults.

Section RuleListRouting.

Lemma evaluate_condition_ok (message : pyvalue) (r : RoutingRule) :
  RouteMessageRules._evaluate_condition (condition r) message
  = Ok (rule_matches message r).
Proof.
  unfold rule_matches, RouteMessageRules._evaluate_condition.
  destruct (not_condition (condition r)); [reflexivity|].
  now destruct (bind _ _).
Qed.

(** The loop over a stretch of rules none of whose matches asks to stop. *)
Lemma route_loop_through (message : pyvalue) (pre rest : list RoutingRule)
    (acc : list string) :
  (forall q, In q pre -> rule_matches message q = true ->
             RouteMessageRules.stop_processing q = Ok false) ->
  RouteMessageRules.route_loop message (pre ++ rest) acc
  = RouteMessageRules.route_loop message rest
      (acc ++ map destination (List.filter (rule_matches message) pre)).
Proof.
  revert acc. induction pre as [|q pre IH]; intros acc Hpre; simpl.
  - now rewrite app_nil_r.
  - rewrite evaluate_condition_ok. simpl.
    destruct (rule_matches message q) eqn:Hq.
    + rewrite (Hpre q (or_introl eq_refl) Hq). simpl.
      rewrite IH by (intros; apply Hpre; [now right | assumption]).
      now rewrite <- app_assoc.
    + apply IH. intros; apply Hpre; [now right | assumption].
Qed.

Lemma route_loop_total (message : pyvalue) (rs : list RoutingRule) (acc : list string) :
  (forall q, In q rs -> rule_matches message q = true ->
             exists b, RouteMessageRules.stop_processing q = Ok b) ->
  exists ds,
    RouteMessageRules.route_loop message rs acc = Ok (acc ++ ds)
    /\ (length ds <= length rs)%nat
    /\ forall d, In d ds ->
         exists q, In q rs /\ rule_matches message q = true /\ destination q = d.
Proof.
  revert acc. induction rs as [|q rs IH]; intros acc Hrs; simpl.
  - exists []. split; [now rewrite app_nil_r|]. split; [reflexivity | intros d []].
  - rewrite evaluate_condition_ok. simpl.
    assert (Hrest : forall x, In x rs -> rule_matches message x = true ->
                      exists b, RouteMessageRules.stop_processing x = Ok b)
      by (intros; apply Hrs; [now right | assumption]).
    destruct (rule_matches message q) eqn:Hq.
    + destruct (Hrs q (or_introl eq_refl) Hq) as [b ->]. simpl. destruct b.
      * exists [destination q]. split; [reflexivity|]. split; [simpl; lia|].
        intros d [<-|[]]. exists q. auto.
      * destruct (IH (acc ++ [destination q]) Hrest) as (ds & -> & Hl & Hds).
        exists (destination q :: ds). split; [now rewrite <- app_assoc|].
        split; [simpl; lia|].
        intros d [<-|Hd]; [exists q; auto|].
        destruct (Hds d Hd) as (x & Hx & Hm & He). exists x. auto.
    + destruct (IH acc Hrest) as (ds & -> & Hl & Hds). exists ds.
      split; [reflexivity|]. split; [lia|].
      intros d Hd. destruct (Hds d Hd) as (x & Hx & Hm & He). exists x. auto.
Qed.





(** X6: the rule-list resolver stops at the first matching rule, in
    priority order, whose [config] sets [stop_processing]: the result is
    the destinations of the matching rules before it followed by its own,
    and no rule after it is reported. *)
Theorem rule_list_stops_at_stop_processing
    (message : pyvalue) (rs pre post : list RoutingRule) (r : RoutingRule) :
  sorted_by_priority rs = pre ++ r :: post ->
  (forall q, In q pre -> rule_matches message q = true ->
             RouteMessageRules.stop_processing q = Ok false) ->
  rule_matches message r = true ->
  RouteMessageRules.stop_processing r = Ok true ->
  RouteMessageRules.execute message rs
  = Ok (map destination (List.filter (rule_matches message) pre) ++ [destination r]).
Proof.
  intros Hs Hpre Hr Hstop. unfold RouteMessageRules.execute.
  rewrite Hs, route_loop_through by exact Hpre. simpl.
  now rewrite evaluate_condition_ok, Hr, Hstop.
Qed.

Lemma rule_list_stops_at_stop_processing_witness :
  RouteMessageRules.execute (PyDict [])
    [ {| rule_name := "audit"; destination := "audit-log"; condition := None;
         priority := 1; config := []; rule_description := None |};
      {| rule_name := "urgent"; destination := "pager"; condition := None;
         priority := 9; config := [("stop_processing", PyBool true)];
         rule_description := None |} ]
  = Ok (map destination (List.filter (rule_matches (PyDict [])) []) ++ ["pager"]).
Proof.
  apply (rule_list_stops_at_stop_processing (PyDict []) _ []
           [ {| rule_name := "audit"; destination := "audit-log"; condition := None;
                priority := 1; config := []; rule_description := None |} ]
           {| rule_name := "urgent"; destination := "pager"; condition := None;
              priority := 9; config := [("stop_processing", PyBool true)];
              rule_description := None |}).
  - reflexivity.
  - intros q [].
  - reflexivity.
  - reflexivity.
Defined.

(** X7: the rule-list resolver raises only through a [stop_processing]
    entry without a truth value: when every matching rule's entry has one
    (or is absent) the call returns, and each destination it returns is
    that of a rule of the list that matches the message. *)
Theorem rule_list_routing_returns_matching_rules
    (message : pyvalue) (rs : list RoutingRule) :
  (forall q, In q rs -> rule_matches message q = true ->
             exists b, RouteMessageRules.stop_processing q = Ok b) ->
  exists ds,
    RouteMessageRules.execute message rs = Ok ds
    /\ (length ds <= length rs)%nat
    /\ forall d, In d ds ->
         exists q, In q rs /\ rule_matches message q = true /\ destination q = d.
Proof.
  intros Hrs. unfold RouteMessageRules.execute.
  destruct (route_loop_total message (sorted_by_priority rs) []) as (ds & E & Hl & Hds).
  { intros q Hq. apply Hrs. now apply in_sorted_by_priority. }
  exists ds. split; [exact E|]. split.
  - now rewrite <- (Permutation_length (sorted_by_priority_perm rs)).
  - intros d Hd. destruct (Hds d Hd) as (q & Hq & Hm & He).
    exists q. split; [now apply in_sorted_by_priority | auto].
Qed.

Lemma rule_list_routing_returns_matching_rules_witness :
  exists ds,
    RouteMessageRules.execute (Scenario.message_priority 10)
      [Scenario.rule_Q1; Scenario.rule_Q2] = Ok ds
    /\ (length ds <= 2)%nat
    /\ forall d, In d ds ->
         exists q, In q [Scenario.rule_Q1; Scenario.rule_Q2]
                   /\ rule_matches (Scenario.message_priority 10) q = true
                   /\ destination q = d.
Proof.
  apply (rule_list_routing_returns_matching_rules (Scenario.message_priority 10)
           [Scenario.rule_Q1; Scenario.rule_Q2]).
  intros q [<-|[<-|[]]] _; exists false; reflexivity.
Defined.

End RuleListRouting.

(** ** The event store under ingestion and status queries *)

Section StatusQueries.
Import Scenario.

Lemma execute_ok_inv (webhook_repo : gmap string Webhook) (repo : EventRepository)
    now wid key (request : WebhookRequest) response repo' :
  ReceiveWebhook.execute webhook_repo repo now wid key request = Ok (response, repo') ->
  (response = None /\ repo' = repo /\ validate_key webhook_repo wid key = false)
  \/ (exists body,
        ReceiveWebhook.raw_body_of request = Ok body
        /\ validate_key webhook_repo wid key = true
        /\ response = Some (accepted (fst (record_received repo now wid (headers request)
                                             body (content_type request)
                                             (correlation_id request))) now request)
        /\ repo' = snd (record_received repo now wid (headers request) body
                          (content_type request) (correlation_id request))).
Proof.
  unfold ReceiveWebhook.execute, validate_key.
  destruct (webhook_repo !! wid) as [w|]; [|intros [= <- <-]; left; auto].
  destruct (String.eqb (webhook_key w) key); simpl; [|intros [= <- <-]; left; auto].
  destruct (ReceiveWebhook.raw_body_of request) as [body|e]; simpl; [|discriminate].
  intros [= <- <-]. right. exists body. auto.
Qed.

Lemma update_status_events (repo : EventRepository) (k : N) (st : string) :
  events (InMemoryEventRepository.update_status repo k st) = events repo.
Proof.
  unfold InMemoryEventRepository.update_status. now destruct (statuses repo !! k).
Qed.

Lemma update_status_lookup (repo : EventRepository) (k j : N) (st : string) :
  statuses (InMemoryEventRepository.update_status repo k st) !! j
  = if decide (k = j) then (fun _ => st) <$> statuses repo !! j else statuses repo !! j.
Proof.
  unfold InMemoryEventRepository.update_status.
  destruct (statuses repo !! k) eqn:E; simpl.
  - rewrite lookup_insert. case_decide; [subst; now rewrite E | reflexivity].
  - case_decide; [subst; now rewrite E | reflexivity].
Qed.

Lemma reachable_invariant (webhook_repo : gmap string Webhook) (repo : EventRepository) :
  reachable webhook_repo repo -> ids_dense repo /\ same_keys repo.
Proof.
  induction 1 as [|repo now wid key request response repo' _ [Hd Hk] E
                  |repo k st _ [Hd Hk]].
  - split; [exact dense_empty|]. intros k. simpl. rewrite !lookup_empty.
    split; intros [x Hx]; discriminate.
  - apply execute_ok_inv in E as [(_ & -> & _)|(body & _ & _ & _ & ->)]; [now split|].
    split; [now apply record_received_dense|].
    intros k. simpl. rewrite !lookup_insert. case_decide; [|apply Hk].
    split; eauto.
  - split.
    + intros j. rewrite update_status_events. apply Hd.
    + intros j. rewrite update_status_events, update_status_lookup, <- (Hk j).
      case_decide; [|reflexivity]. now rewrite fmap_is_Some.
Qed.

Lemma get_status_known (repo : EventRepository) (k : N) (st : string) (ev : Received) :
  statuses repo !! k = Some st -> events repo !! k = Some ev ->
  InMemoryEventRepository.get_status repo k
  = Ok (Some {| state := st; status_correlation_id := rec_correlation_id ev;
                status_error := None |}).
Proof.
  intros Hs He. unfold InMemoryEventRepository.get_status. now rewrite Hs, He.
Qed.

(** X8: every store that ingestion calls and status updates lead to from
    the empty store holds exactly the response ids 1 to n, n the number of
    events, and a status for each of them; on such a store [get_status]
    never fails, and answers for exactly the ids issued so far. *)
Theorem reachable_store_is_consistent
    (webhook_repo : gmap string Webhook) (repo : EventRepository) :
  reachable webhook_repo repo ->
  ids_dense repo
  /\ same_keys repo
  /\ forall k, exists o,
       InMemoryEventRepository.get_status repo k = Ok o
       /\ (is_Some o <-> (1 <= k <= N.of_nat (size (events repo)))%N).
Proof.
  intros Hr. destruct (reachable_invariant webhook_repo repo Hr) as [Hd Hk].
  split; [exact Hd|]. split; [exact Hk|]. intros k.
  unfold InMemoryEventRepository.get_status.
  destruct (statuses repo !! k) as [st|] eqn:Hs.
  - assert (He : is_Some (events repo !! k)) by (apply Hk; rewrite Hs; eauto).
    destruct He as [ev He]. rewrite He. eexists. split; [reflexivity|].
    rewrite <- (Hd k), He. split; eauto.
  - exists None. split; [reflexivity|].
    rewrite <- (Hd k), <- (Hk k), Hs. split; intros [x Hx]; discriminate.
Qed.

Lemma reachable_store_is_consistent_witness :
  ids_dense (snd (record_received empty_repo 10 "test-webhook" ∅
                    (encode_utf8 "binary test data") "application/octet-stream"
                    (Some "test-124")))
  /\ same_keys (snd (record_received empty_repo 10 "test-webhook" ∅
                       (encode_utf8 "binary test data") "application/octet-stream"
                       (Some "test-124")))
  /\ forall k, exists o,
       InMemoryEventRepository.get_status
         (snd (record_received empty_repo 10 "test-webhook" ∅
                 (encode_utf8 "binary test data") "application/octet-stream"
                 (Some "test-124"))) k = Ok o
       /\ (is_Some o <->
           (1 <= k <= N.of_nat (size (events
              (snd (record_received empty_repo 10 "test-webhook" ∅
                      (encode_utf8 "binary test data") "application/octet-stream"
                      (Some "test-124"))))))%N).
Proof.
  apply (reachable_store_is_consistent webhooks).
  apply (reachable_receive webhooks empty_repo 10 "test-webhook" "test-key"
           binary_request (Some (accepted 1 10 binary_request))).
  - apply reachable_empty.
  - reflexivity.
Defined.



Example uuid_str_of_7 : uuid_str 7 = "00000000-0000-0000-0000-000000000007".
Proof. reflexivity. Qed.

(** X10: right after a submission is accepted, the status of the response
    id it returned is "pending", with the request's correlation id and
    neither result nor error, whatever the result repository holds. *)
Theorem accepted_submission_is_pending
    (webhook_repo : gmap string Webhook) (repo repo' : EventRepository)
    (results : gmap N WebhookResult) (now now' : Z) (webhook_id key : string)
    (request : WebhookRequest) (r : WebhookAcceptedResponse) :
  ReceiveWebhook.execute webhook_repo repo now webhook_id key request
    = Ok (Some r, repo') ->
  GetWebhookStatus.execute repo' results now' (response_id r)
  = Ok {| sr_response_id := response_id r; sr_status := "pending";
          sr_result := None; sr_error := None;
          sr_correlation_id := correlation_id request;
          sr_timestamp := now' |}.
Proof.
  intros E. apply execute_ok_inv in E as [(H & _)|(body & _ & _ & [= ->] & ->)];
    [discriminate H|].
  unfold GetWebhookStatus.execute, InMemoryEventRepository.get_status. simpl.
  rewrite !lookup_insert_eq. reflexivity.
Qed.

Lemma accepted_submission_is_pending_witness :
  GetWebhookStatus.execute
    (snd (record_received empty_repo 10 "test-webhook" ∅
            (encode_utf8 "binary test data") "application/octet-stream"
            (Some "test-124"))) ∅ 20 1
  = Ok {| sr_response_id := 1; sr_status := "pending";
          sr_result := None; sr_error := None;
          sr_correlation_id := Some "test-124"; sr_timestamp := 20 |}.
Proof.
  apply (accepted_submission_is_pending webhooks empty_repo _ ∅ 10 20
           "test-webhook" "test-key" binary_request (accepted 1 10 binary_request)).
  reflexivity.
Defined.

(** X11: once the status of a known response id is set to "completed" or
    "failed" and a result (a dict, or none) is stored for it, the status
    query returns that status together with the stored result and error,
    and the correlation id the event was received with. *)
Theorem finished_event_reports_stored_result
    (repo : EventRepository) (results : gmap N WebhookResult) (now : Z) (k : N)
    (st st0 : string) (ev : Received) (success : bool)
    (result : option (list (string * pyvalue))) (error : option string) :
  events repo !! k = Some ev ->
  statuses repo !! k = Some st0 ->
  st = "completed" \/ st = "failed" ->
  GetWebhookStatus.execute
    (InMemoryEventRepository.update_status repo k st)
    (InMemoryResultRepository.store_result results k success (PyDict <$> result) error)
    now k
  = Ok {| sr_response_id := k; sr_status := st; sr_result := PyDict <$> result;
          sr_error := error; sr_correlation_id := rec_correlation_id ev;
          sr_timestamp := now |}.
Proof.
  intros He Hs Hst. unfold GetWebhookStatus.execute.
  erewrite get_status_known.
  2: { rewrite update_status_lookup. rewrite decide_True by reflexivity.
       now rewrite Hs. }
  2: { rewrite update_status_events. exact He. }
  simpl. unfold InMemoryResultRepository.get_result,
    InMemoryResultRepository.store_result. rewrite lookup_insert_eq.
  destruct Hst as [-> | ->]; simpl; now rewrite andb_false_r.
Qed.

Lemma finished_event_reports_stored_result_witness :
  GetWebhookStatus.execute
    (InMemoryEventRepository.update_status
       (snd (record_received empty_repo 10 "test-webhook" ∅
               (encode_utf8 "binary test data") "application/octet-stream"
               (Some "test-124"))) 1 "completed")
    (InMemoryResultRepository.store_result ∅ 1 true
       (Some (PyDict [("processed", PyBool true)])) None)
    30 1
  = Ok {| sr_response_id := 1; sr_status := "completed";
          sr_result := Some (PyDict [("processed", PyBool true)]);
          sr_error := None;
          sr_correlation_id := Some "test-124"; sr_timestamp := 30 |}.
Proof.
  apply (finished_event_reports_stored_result _ ∅ 30 1 "completed" "pending"
           (received_at 10 "test-webhook" binary_request
              (encode_utf8 "binary test data"))
           true (Some [("processed", PyBool true)]) None).
  - reflexivity.
  - reflexivity.
  - now left.
Defined.

(** X12: a status query that returns reports the stored status of the id
    asked for; unless that status is "completed" or "failed" it reports
    neither a result nor an error, even when the result repository holds
    a result for the id. *)
Theorem unfinished_event_reports_no_result
    (repo : EventRepository) (results : gmap N WebhookResult) (now : Z) (k : N)
    (resp : WebhookStatusResponse) :
  GetWebhookStatus.execute repo results now k = Ok resp ->
  sr_response_id resp = k
  /\ statuses repo !! k = Some (sr_status resp)
  /\ (sr_status resp <> "completed" -> sr_status resp <> "failed" ->
      sr_result resp = None /\ sr_error resp = None).
Proof.
  unfold GetWebhookStatus.execute, InMemoryEventRepository.get_status.
  destruct (statuses repo !! k) as [st|] eqn:Hs; [|discriminate].
  destruct (events repo !! k) as [ev|]; [|discriminate]. simpl.
  unfold str_in. simpl.
  destruct (String.eqb_spec st "completed") as [->|Hc].
  { simpl. destruct (InMemoryResultRepository.get_result results k); simpl;
      intros [= <-]; simpl; (split; [reflexivity|]; split; [reflexivity|]; congruence). }
  destruct (String.eqb_spec st "failed") as [->|Hf].
  { simpl. destruct (InMemoryResultRepository.get_result results k); simpl;
      intros [= <-]; simpl; (split; [reflexivity|]; split; [reflexivity|]; congruence). }
  simpl. intros [= <-]. simpl. auto.
Qed.

Lemma unfinished_event_reports_no_result_witness :
  sr_response_id
    {| sr_response_id := 1; sr_status := "pending"; sr_result := None; sr_error := None;
       sr_correlation_id := Some "test-124"; sr_timestamp := 20 |} = 1%N
  /\ statuses (snd (record_received empty_repo 10 "test-webhook" ∅
                      (encode_utf8 "binary test data") "application/octet-stream"
                      (Some "test-124"))) !! 1%N = Some "pending"
  /\ ("pending" <> "completed" -> "pending" <> "failed" ->
      @None pyvalue = None /\ @None string = None).
Proof.
  apply (unfinished_event_reports_no_result
           (snd (record_received empty_repo 10 "test-webhook" ∅
                   (encode_utf8 "binary test data") "application/octet-stream"
                   (Some "test-124")))
           (InMemoryResultRepository.store_result ∅ 1 true (Some (PyInt 1)) None) 20 1
           {| sr_response_id := 1; sr_status := "pending"; sr_result := None;
              sr_error := None; sr_correlation_id := Some "test-124";
              sr_timestamp := 20 |}).
  reflexivity.
Defined.

(** X13: the outcome of an ingestion call is decided by [validate_key]:
    when it fails the call is rejected and the store untouched; when it
    holds and the body can be produced the call is accepted with status
    "accepted", echoes the request's correlation id and adds one event;
    when the payload cannot be serialised the exception is passed on. *)
Theorem ingestion_outcome_follows_validate_key
    (webhook_repo : gmap string Webhook) (repo : EventRepository)
    (now : Z) (webhook_id key : string) (request : WebhookRequest) :
  (validate_key webhook_repo webhook_id key = false ->
   ReceiveWebhook.execute webhook_repo repo now webhook_id key request = Ok (None, repo))
  /\ (validate_key webhook_repo webhook_id key = true ->
      forall body, ReceiveWebhook.raw_body_of request = Ok body ->
      exists r repo',
        ReceiveWebhook.execute webhook_repo repo now webhook_id key request
          = Ok (Some r, repo')
        /\ status r = "accepted"
        /\ resp_correlation_id r = correlation_id request
        /\ events repo' !! response_id r = Some (received_at now webhook_id request body)
        /\ statuses repo' !! response_id r = Some "pending")
  /\ (validate_key webhook_repo webhook_id key = true ->
      forall e, ReceiveWebhook.raw_body_of request = Raise e ->
      ReceiveWebhook.execute webhook_repo repo now webhook_id key request = Raise e).
Proof.
  unfold validate_key, ReceiveWebhook.execute.
  destruct (webhook_repo !! webhook_id) as [w|].
  - destruct (String.eqb (webhook_key w) key); simpl.
    + split; [discriminate|]. split.
      * intros _ body ->. simpl. eexists _, _. split; [reflexivity|]. simpl.
        split; [reflexivity|]. split; [reflexivity|].
        split; apply lookup_insert_eq.
      * intros _ e ->. reflexivity.
    + split; [reflexivity|]. split; discriminate.
  - split; [reflexivity|]. split; discriminate.
Qed.

(** X14: on a store reached by ingestion and status updates, an ingestion
    call never touches what is already stored: every earlier event and its
    status are found unchanged afterwards, and the store grows by at most
    one event. *)
Theorem ingestion_preserves_earlier_events
    (webhook_repo : gmap string Webhook) (repo repo' : EventRepository)
    (now : Z) (webhook_id key : string) (request : WebhookRequest)
    (response : option WebhookAcceptedResponse) :
  reachable webhook_repo repo ->
  ReceiveWebhook.execute webhook_repo repo now webhook_id key request
    = Ok (response, repo') ->
  (forall k ev, events repo !! k = Some ev ->
     events repo' !! k = Some ev /\ statuses repo' !! k = statuses repo !! k)
  /\ (size (events repo')
      = size (events repo) + match response with Some _ => 1 | None => 0 end)%nat.
Proof.
  intros Hr E. destruct (reachable_invariant webhook_repo repo Hr) as [Hd _].
  apply execute_ok_inv in E as [(-> & -> & _)|(body & _ & _ & -> & ->)].
  - split; [auto | lia].
  - split.
    + intros k ev Hk.
      assert (Hne : (N.of_nat (size (events repo)) + 1)%N <> k).
      { intros <-. rewrite (dense_fresh repo Hd) in Hk. discriminate. }
      simpl. now rewrite !lookup_insert_ne by exact Hne.
    + rewrite record_received_size by exact Hd. lia.
Qed.

Lemma ingestion_preserves_earlier_events_witness :
  events
    (snd (record_received
            (InMemoryEventRepository.update_status
               (snd (record_received empty_repo 10 "test-webhook" ∅
                       (encode_utf8 "binary test data") "application/octet-stream"
                       (Some "test-124"))) 1 "completed")
            20 "test-webhook" ∅ (encode_utf8 "binary test data")
            "application/octet-stream" (Some "test-124"))) !! 1%N
  = Some (received_at 10 "test-webhook" binary_request (encode_utf8 "binary test data"))
  /\ statuses
       (snd (record_received
               (InMemoryEventRepository.update_status
                  (snd (record_received empty_repo 10 "test-webhook" ∅
                          (encode_utf8 "binary test data") "application/octet-stream"
                          (Some "test-124"))) 1 "completed")
               20 "test-webhook" ∅ (encode_utf8 "binary test data")
               "application/octet-stream" (Some "test-124"))) !! 1%N
     = Some "completed"
  /\ size (events
             (snd (record_received
                     (InMemoryEventRepository.update_status
                        (snd (record_received empty_repo 10 "test-webhook" ∅
                                (encode_utf8 "binary test data")
                                "application/octet-stream" (Some "test-124")))
                        1 "completed")
                     20 "test-webhook" ∅ (encode_utf8 "binary test data")
                     "application/octet-stream" (Some "test-124"))))
     = 2%nat.
Proof.
  pose proof (ingestion_preserves_earlier_events webhooks
                (InMemoryEventRepository.update_status
                   (snd (record_received empty_repo 10 "test-webhook" ∅
                           (encode_utf8 "binary test data") "application/octet-stream"
                           (Some "test-124"))) 1 "completed")
                (snd (record_received
                        (InMemoryEventRepository.update_status
                           (snd (record_received empty_repo 10 "test-webhook" ∅
                                   (encode_utf8 "binary test data")
                                   "application/octet-stream" (Some "test-124")))
                           1 "completed")
                        20 "test-webhook" ∅ (encode_utf8 "binary test data")
                        "application/octet-stream" (Some "test-124")))
                20 "test-webhook" "test-key" binary_request
                (Some (accepted 2 20 binary_request))) as H.
  destruct H as [Hkeep Hsize].
  - apply reachable_update.
    apply (reachable_receive webhooks empty_repo 10 "test-webhook" "test-key"
             binary_request (Some (accepted 1 10 binary_request))).
    + apply reachable_empty.
    + reflexivity.
  - reflexivity.
  - destruct (Hkeep 1%N (received_at 10 "test-webhook" binary_request
                           (encode_utf8 "binary test data")) eq_refl) as [He Hs].
    split; [exact He|]. split; [rewrite Hs; reflexivity|]. exact Hsize.
Defined.

End StatusQueries.

(** ** The queue processor over a batch *)

Section QueueBatch.
Import ProcessEventQueue.

(** What one turn of the loop adds to the log and to the counters. *)
Lemma process_event_step (env : Collaborators) (now : Z) (stats : Stats)
    (calls : list RepoCall) (event : Event) :
  exists stats' st err second,
    process_event env now (stats, calls) event
    = (stats', calls ++ [update_status (event_id event) st now err None; second])
    /\ (st = "completed" \/ st = "failed")
    /\ (second = schedule_retry (event_id event)
        /\ get_retry_count env (event_id event) < 3 /\ st = "failed"
        \/ second = store_result (event_id event) false None err
           /\ 3 <= get_retry_count env (event_id event) /\ st = "failed"
        \/ (exists res, second = store_result (event_id event) true res None)
           /\ st = "completed" /\ action_missing env event = false)
    /\ succeeded stats' + failed stats' + retry_scheduled stats'
       = succeeded stats + failed stats + retry_scheduled stats + 1
    /\ processed stats'
       = processed stats + (if action_missing env event then 0 else 1)
    /\ succeeded stats <= succeeded stats' /\ failed stats <= failed stats'
    /\ retry_scheduled stats <= retry_scheduled stats'.
Proof.
  unfold process_event, action_missing, _handle_failure, _handle_success, count_failure.
  destruct (actions env !! action_id event) as [a|].
  - destruct (action_execute env a (content event)) as [res|e].
    + destruct (success res).
      * eexists _, _, _, _. split; [reflexivity|]. simpl.
        split; [now left|]. split; [right; right; eauto|]. lia.
      * destruct (Z.ltb_spec (get_retry_count env (event_id event)) 3);
          eexists _, _, _, _; (split; [now rewrite <- app_assoc|]); simpl;
          (split; [now right|]); (split; [auto|]); lia.
    + destruct (Z.ltb_spec (get_retry_count env (event_id event)) 3);
        eexists _, _, _, _; (split; [now rewrite <- app_assoc|]); simpl;
        (split; [now right|]); (split; [auto|]); lia.
  - destruct (Z.ltb_spec (get_retry_count env (event_id event)) 3);
      eexists _, _, _, _; (split; [now rewrite <- app_assoc|]); simpl;
      (split; [now right|]); (split; [auto|]); lia.
Qed.

Lemma process_fold_counts (env : Collaborators) (now : Z) (events : list Event)
    (stats : Stats) (calls : list RepoCall) :
  let stats' := fst (fold_left (process_event env now) events (stats, calls)) in
  succeeded stats' + failed stats' + retry_scheduled stats'
  = succeeded stats + failed stats + retry_scheduled stats + len events
  /\ processed stats'
     = processed stats + len events - len (List.filter (action_missing env) events)
  /\ succeeded stats <= succeeded stats' /\ failed stats <= failed stats'
  /\ retry_scheduled stats <= retry_scheduled stats'.
Proof.
  revert stats calls. induction events as [|ev events IH]; intros stats calls.
  - simpl. unfold len. simpl. lia.
  - cbn [fold_left].
    destruct (process_event_step env now stats calls ev)
      as (stats1 & st & err & second & -> & _ & _ & Hsum & Hproc & H1 & H2 & H3).
    specialize (IH stats1 (calls ++ [update_status (event_id ev) st now err None; second])).
    cbv zeta in *. destruct IH as (IH1 & IH2 & IH3 & IH4 & IH5).
    assert (Hf : len (List.filter (action_missing env) (ev :: events))
                 = (if action_missing env ev then 1 else 0)
                   + len (List.filter (action_missing env) events)).
    { unfold len. simpl. destruct (action_missing env ev); simpl; lia. }
    assert (Hl : len (ev :: events) = 1 + len events) by (unfold len; simpl; lia).
    rewrite Hf, Hl. destruct (action_missing env ev); lia.
Qed.

(** X15: over a batch the queue processor puts every event under exactly
    one of succeeded, failed and retry_scheduled, so the three add up to
    the size of the batch; [processed] leaves out exactly the events whose
    action is missing. *)
Theorem queue_batch_counts_every_event
    (env : Collaborators) (now batch_size : Z) (calls : list RepoCall) :
  let events := get_pending_events env batch_size in
  let stats := fst (execute env now batch_size calls) in
  succeeded stats + failed stats + retry_scheduled stats = len events
  /\ processed stats = len events - len (List.filter (action_missing env) events)
  /\ 0 <= processed stats <= len events
  /\ 0 <= succeeded stats /\ 0 <= failed stats /\ 0 <= retry_scheduled stats.
Proof.
  cbv zeta. unfold execute.
  pose proof (process_fold_counts env now (get_pending_events env batch_size)
                {| processed := 0; succeeded := 0; failed := 0; retry_scheduled := 0 |}
                calls) as H.
  cbv zeta in H. simpl in H. destruct H as (H1 & H2 & H3 & H4 & H5).
  assert (Hf : (length (List.filter (action_missing env) (get_pending_events env batch_size))
                <= length (get_pending_events env batch_size))%nat)
    by apply filter_length_le.
  unfold len in *. repeat split; lia.
Qed.

Lemma process_fold_calls (env : Collaborators) (now : Z) (events : list Event)
    (stats : Stats) (calls : list RepoCall) :
  exists new,
    snd (fold_left (process_event env now) events (stats, calls)) = calls ++ new
    /\ length new = (2 * length events)%nat
    /\ map fst (status_updates new) = map event_id events
    /\ Forall (fun p => snd p = "completed" \/ snd p = "failed") (status_updates new)
    /\ (forall id, In (schedule_retry id) new ->
          get_retry_count env id < 3 /\ exists ev, In ev events /\ event_id ev = id)
    /\ (forall id res err, In (store_result id false res err) new ->
          3 <= get_retry_count env id /\ res = None
          /\ exists ev, In ev events /\ event_id ev = id)
    /\ (forall id res err, In (store_result id true res err) new ->
          err = None
          /\ exists ev, In ev events /\ event_id ev = id /\ action_missing env ev = false).
Proof.
  revert stats calls. induction events as [|ev events IH]; intros stats calls.
  - exists []. simpl. rewrite app_nil_r. repeat split; try constructor;
      intros; contradiction.
  - cbn [fold_left].
    destruct (process_event_step env now stats calls ev)
      as (stats1 & st & err & second & -> & Hst & Hsecond & _).
    destruct (IH stats1 (calls ++ [update_status (event_id ev) st now err None; second]))
      as (new & -> & Hlen & Hupd & Hall & Hretry & Hfail & Hok).
    exists ([update_status (event_id ev) st now err None; second] ++ new).
    split; [now rewrite <- app_assoc|]. split; [simpl; lia|].
    assert (Hsec : status_updates
                     ([update_status (event_id ev) st now err None; second] ++ new)
                   = (event_id ev, st) :: status_updates new).
    { destruct Hsecond as [(-> & _)|[(-> & _)|((res & ->) & _)]]; reflexivity. }
    rewrite Hsec.
    split; [simpl; now rewrite Hupd|].
    split; [now constructor|].
    split; [|split].
    + intros id [H|[H|H]]; [discriminate H| |].
      * destruct Hsecond as [(E & Hlt & _)|[(E & _)|((res & E) & _)]];
          rewrite E in H; try discriminate H.
        injection H as <-. split; [exact Hlt|]. exists ev. split; [now left | reflexivity].
      * destruct (Hretry id H) as (Hlt & x & Hx & He). split; [exact Hlt|].
        exists x. split; [now right | exact He].
    + intros id res e [H|[H|H]]; [discriminate H| |].
      * destruct Hsecond as [(E & _)|[(E & Hge & _)|((r & E) & _)]];
          rewrite E in H; try discriminate H.
        injection H as <- <- <-. split; [exact Hge|]. split; [reflexivity|].
        exists ev. split; [now left | reflexivity].
      * destruct (Hfail id res e H) as (Hge & Hres & x & Hx & He).
        split; [exact Hge|]. split; [exact Hres|]. exists x. split; [now right | exact He].
    + intros id res e [H|[H|H]]; [discriminate H| |].
      * destruct Hsecond as [(E & _)|[(E & _)|((r & E) & _ & Hm)]];
          rewrite E in H; try discriminate H.
        injection H as <- <- <-. split; [reflexivity|].
        exists ev. split; [now left|]. split; [reflexivity | exact Hm].
      * destruct (Hok id res e H) as (Herr & x & Hx & He & Hm).
        split; [exact Herr|]. exists x. split; [now right|]. auto.
Qed.

(** X16: the queue processor only appends to the calls made before it,
    two calls for each event of the batch, and the status updates among
    them are one for each event, in batch order, each to "completed" or to
    "failed". *)
Theorem queue_batch_updates_every_event_once
    (env : Collaborators) (now batch_size : Z) (calls : list RepoCall) :
  exists new,
    snd (execute env now batch_size calls) = calls ++ new
    /\ length new = (2 * length (get_pending_events env batch_size))%nat
    /\ map fst (status_updates new) = map event_id (get_pending_events env batch_size)
    /\ Forall (fun p => snd p = "completed" \/ snd p = "failed") (status_updates new).
Proof.
  unfold execute.
  destruct (process_fold_calls env now (get_pending_events env batch_size)
              {| processed := 0; succeeded := 0; failed := 0; retry_scheduled := 0 |}
              calls) as (new & E & Hlen & Hupd & Hall & _).
  exists new. auto.
Qed.

(** X17: among the calls the queue processor adds, a retry is scheduled
    only for an event of the batch whose retry count is below 3, a failure
    result is stored only for one whose retry count has reached 3, and a
    success result only for one whose action exists. *)
Theorem queue_batch_retries_only_below_limit
    (env : Collaborators) (now batch_size : Z) (calls : list RepoCall) :
  exists new,
    snd (execute env now batch_size calls) = calls ++ new
    /\ (forall id, In (schedule_retry id) new ->
          get_retry_count env id < 3
          /\ exists ev, In ev (get_pending_events env batch_size) /\ event_id ev = id)
    /\ (forall id res err, In (store_result id false res err) new ->
          3 <= get_retry_count env id /\ res = None
          /\ exists ev, In ev (get_pending_events env batch_size) /\ event_id ev = id)
    /\ (forall id res err, In (store_result id true res err) new ->
          err = None
          /\ exists ev, In ev (get_pending_events env batch_size)
                        /\ event_id ev = id /\ action_missing env ev = false).
Proof.
  unfold execute.
  destruct (process_fold_calls env now (get_pending_events env batch_size)
              {| processed := 0; succeeded := 0; failed := 0; retry_scheduled := 0 |}
              calls) as (new & E & _ & _ & _ & H1 & H2 & H3).
  exists new. auto.
Qed.

End QueueBatch.

(** ** The retry use case over a batch *)

Section RetryBatch.
Import RetryFailedEvents.

(** What the retry use case writes for one event. *)
Lemma retry_event_step (env : Collaborators) (now max_retries : Z) (stats : Stats)
    (calls : list RepoCall) (event : Event) :
  let rc := get_retry_count env (event_id event) in
  let due := _should_retry_now now event (_calculate_backoff rc) in
  exists stats' added,
    retry_event env now max_retries (stats, calls) event = (stats', calls ++ added)
    /\ (forall id, ~ In (schedule_retry id) added)
    /\ (forall id st t err n, In (update_status id st t err (Some n)) added ->
          id = event_id event /\ st = "failed" /\ n = rc + 1 /\ n <= max_retries)
    /\ (forall id st t err, In (update_status id st t err None) added ->
          st = "completed" \/ (st = "failed" /\ err = Some "Action not found"))
    /\ max_attempts stats'
       = max_attempts stats + (if max_retries <=? rc then 1 else 0)
    /\ succeeded stats' + failed stats'
       = succeeded stats + failed stats
         + (if negb (max_retries <=? rc) && due then 1 else 0)
    /\ retried stats'
       = retried stats
         + (if negb (max_retries <=? rc) && due && negb (action_missing env event)
            then 1 else 0)
    /\ succeeded stats <= succeeded stats' /\ failed stats <= failed stats'.
Proof.
  cbv zeta. unfold retry_event, action_missing.
  destruct (Z.leb_spec max_retries (get_retry_count env (event_id event))) as [Hge|Hlt].
  { exists {| retried := retried stats; succeeded := succeeded stats;
              failed := failed stats; max_attempts := max_attempts stats + 1 |}, [].
    rewrite app_nil_r. simpl. repeat split; try lia; unfold not; intros; contradiction. }
  destruct (_should_retry_now now event _) eqn:Hdue; simpl.
  2: { exists stats, []. rewrite app_nil_r. repeat split; try lia; unfold not; intros; contradiction. }
  destruct (actions env !! action_id event) as [a|].
  - destruct (action_execute env a (content event)) as [res|e].
    + destruct (success res).
      * eexists _, _. split; [reflexivity|]. simpl.
        split; [intros id [H|[H|[]]]; discriminate H|].
        split; [intros id st t err n [H|[H|[]]]; discriminate H|].
        split; [intros id st t err [H|[H|[]]]; [injection H as <- <- <- <-; now left
                                               | discriminate H]|].
        lia.
      * eexists _, _. split; [reflexivity|]. simpl.
        split; [intros id [H|[]]; discriminate H|].
        split; [intros id st t err n [H|[]]; injection H as <- <- <- <- <-;
                repeat split; lia|].
        split; [intros id st t err [H|[]]; discriminate H|].
        lia.
    + eexists _, _. split; [reflexivity|]. simpl.
      split; [intros id [H|[]]; discriminate H|].
      split; [intros id st t err n [H|[]]; injection H as <- <- <- <- <-;
              repeat split; lia|].
      split; [intros id st t err [H|[]]; discriminate H|].
      lia.
  - eexists _, _. split; [reflexivity|]. simpl.
    split; [intros id [H|[H|[]]]; discriminate H|].
    split; [intros id st t err n [H|[H|[]]]; discriminate H|].
    split; [intros id st t err [H|[H|[]]]; [injection H as <- <- <- <-; now right
                                           | discriminate H]|].
    lia.
Qed.

Lemma retry_fold_calls (env : Collaborators) (now max_retries : Z) (events : list Event)
    (stats : Stats) (calls : list RepoCall) :
  exists new,
    snd (fold_left (retry_event env now max_retries) events (stats, calls)) = calls ++ new
    /\ (forall id, ~ In (schedule_retry id) new)
    /\ (forall id st t err n, In (update_status id st t err (Some n)) new ->
          st = "failed" /\ n = get_retry_count env id + 1 /\ n <= max_retries
          /\ exists ev, In ev events /\ event_id ev = id)
    /\ (forall id st t err, In (update_status id st t err None) new ->
          st = "completed" \/ (st = "failed" /\ err = Some "Action not found")).
Proof.
  revert stats calls. induction events as [|ev events IH]; intros stats calls.
  - exists []. simpl. rewrite app_nil_r. repeat split; unfold not; intros; contradiction.
  - cbn [fold_left].
    destruct (retry_event_step env now max_retries stats calls ev)
      as (stats1 & added & -> & Hno & Hcount & Hnone & _).
    destruct (IH stats1 (calls ++ added)) as (new & -> & Hno' & Hcount' & Hnone').
    exists (added ++ new). split; [now rewrite <- app_assoc|].
    split; [|split].
    + intros id H. apply in_app_or in H as [H|H]; [now apply (Hno id) | now apply (Hno' id)].
    + intros id st t err n H. apply in_app_or in H as [H|H].
      * destruct (Hcount id st t err n H) as (-> & -> & -> & Hle).
        repeat split; try assumption. exists ev. split; [now left | reflexivity].
      * destruct (Hcount' id st t err n H) as (Hs & Hn & Hle & x & Hx & He).
        repeat split; try assumption. exists x. split; [now right | exact He].
    + intros id st t err H. apply in_app_or in H as [H|H]; eauto.
Qed.

(** X18: the retry use case only appends to the calls made before it and
    never schedules a retry; every retry count it writes belongs to a
    failed attempt on an event of the batch, is that event's count plus
    one, and does not exceed [max_retries]. *)
Theorem retry_batch_counts_stay_within_limit
    (env : Collaborators) (now max_retries batch_size : Z) (calls : list RepoCall) :
  exists new,
    snd (execute env now max_retries batch_size calls) = calls ++ new
    /\ (forall id, ~ In (schedule_retry id) new)
    /\ (forall id st t err n, In (update_status id st t err (Some n)) new ->
          st = "failed" /\ n = get_retry_count env id + 1 /\ n <= max_retries
          /\ exists ev, In ev (get_failed_events env max_retries batch_size)
                        /\ event_id ev = id)
    /\ (forall id st t err, In (update_status id st t err None) new ->
          st = "completed" \/ (st = "failed" /\ err = Some "Action not found")).
Proof. unfold execute. apply retry_fold_calls. Qed.

Lemma retry_fold_counts (env : Collaborators) (now max_retries : Z) (events : list Event)
    (stats : Stats) (calls : list RepoCall) :
  let exhausted := fun e => max_retries <=? get_retry_count env (event_id e) in
  let due := fun e => negb (exhausted e)
                      && _should_retry_now now e
                           (_calculate_backoff (get_retry_count env (event_id e))) in
  let stats' := fst (fold_left (retry_event env now max_retries) events (stats, calls)) in
  max_attempts stats' = max_attempts stats + len (List.filter exhausted events)
  /\ succeeded stats' + failed stats'
     = succeeded stats + failed stats + len (List.filter due events)
  /\ retried stats'
     = retried stats
       + len (List.filter (fun e => due e && negb (action_missing env e)) events)
  /\ succeeded stats <= succeeded stats' /\ failed stats <= failed stats'.
Proof.
  cbv zeta. revert stats calls. induction events as [|ev events IH]; intros stats calls.
  - simpl. unfold len. simpl. lia.
  - cbn [fold_left].
    destruct (retry_event_step env now max_retries stats calls ev)
      as (stats1 & added & -> & _ & _ & _ & Hm & Hsf & Hr & H1 & H2).
    cbv zeta in *.
    destruct (IH stats1 (calls ++ added)) as (IH1 & IH2 & IH3 & IH4 & IH5).
    rewrite IH1, IH2, IH3, Hm, Hsf, Hr. unfold len. cbn [List.filter].
    destruct (max_retries <=? get_retry_count env (event_id ev)); simpl;
      destruct (_should_retry_now now ev _); simpl;
      destruct (action_missing env ev); simpl; lia.
Qed.

Lemma filter_and_le {A : Type} (p q : A -> bool) (l : list A) :
  len (List.filter (fun e => p e && q e) l) <= len (List.filter p l).
Proof.
  induction l as [|e l IH]; unfold len in *; simpl; [lia|].
  destruct (p e), (q e); simpl; lia.
Qed.

Lemma filter_split_le {A : Type} (p q : A -> bool) (l : list A) :
  len (List.filter (fun e => negb (p e) && q e) l) + len (List.filter p l) <= len l.
Proof.
  induction l as [|e l IH]; unfold len in *; simpl; [lia|].
  destruct (p e), (q e); simpl; lia.
Qed.

(** X19: over a batch the retry use case counts as [max_attempts] exactly
    the events whose retry count has reached [max_retries]; every other
    event whose backoff has elapsed is counted once as succeeded or failed,
    and as retried unless its action is missing; an event still waiting for
    its backoff is counted nowhere. *)
Theorem retry_batch_counts
    (env : Collaborators) (now max_retries batch_size : Z) (calls : list RepoCall) :
  let events := get_failed_events env max_retries batch_size in
  let exhausted := fun e => max_retries <=? get_retry_count env (event_id e) in
  let due := fun e => negb (exhausted e)
                      && _should_retry_now now e
                           (_calculate_backoff (get_retry_count env (event_id e))) in
  let stats := fst (execute env now max_retries batch_size calls) in
  max_attempts stats = len (List.filter exhausted events)
  /\ succeeded stats + failed stats = len (List.filter due events)
  /\ retried stats
     = len (List.filter (fun e => due e && negb (action_missing env e)) events)
  /\ 0 <= retried stats <= succeeded stats + failed stats
  /\ succeeded stats + failed stats + max_attempts stats <= len events
  /\ 0 <= succeeded stats /\ 0 <= failed stats.
Proof.
  cbv zeta. unfold execute.
  pose proof (retry_fold_counts env now max_retries
                (get_failed_events env max_retries batch_size)
                {| retried := 0; succeeded := 0; failed := 0; max_attempts := 0 |}
                calls) as H.
  cbv zeta in H. simpl in H. destruct H as (H1 & H2 & H3 & H4 & H5).
  split; [exact H1|]. split; [exact H2|]. split; [exact H3|].
  rewrite H1, H2, H3.
  pose proof (filter_and_le
                (fun e => negb (max_retries <=? get_retry_count env (event_id e))
                          && _should_retry_now now e
                               (_calculate_backoff (get_retry_count env (event_id e))))
                (fun e => negb (action_missing env e))
                (get_failed_events env max_retries batch_size)) as Ha.
  pose proof (filter_split_le
                (fun e => max_retries <=? get_retry_count env (event_id e))
                (fun e => _should_retry_now now e
                            (_calculate_backoff (get_retry_count env (event_id e))))
                (get_failed_events env max_retries batch_size)) as Hb.
  cbv beta in Ha, Hb. unfold len in *. repeat split; lia.
Qed.

(** X20: an event that was never processed is due at once; one that was
    last processed an hour or more ago is due whatever its retry count;
    one processed less than 30 seconds ago is never due; an event that is
    due stays due as time passes, and is also due at any lower count. *)
Theorem backoff_gate
    (now : Z) (event : Event) (retry_count : Z) :
  (processed_at event = None ->
   _should_retry_now now event (_calculate_backoff retry_count) = true)
  /\ (forall t, processed_at event = Some t -> 3600 <= now - t ->
      _should_retry_now now event (_calculate_backoff retry_count) = true)
  /\ (forall t, processed_at event = Some t -> 0 <= retry_count -> now - t < 30 ->
      _should_retry_now now event (_calculate_backoff retry_count) = false)
  /\ (forall later, now <= later ->
      _should_retry_now now event (_calculate_backoff retry_count) = true ->
      _should_retry_now later event (_calculate_backoff retry_count) = true)
  /\ (forall lower, 0 <= lower <= retry_count ->
      _should_retry_now now event (_calculate_backoff retry_count) = true ->
      _should_retry_now now event (_calculate_backoff lower) = true).
Proof.
  unfold _should_retry_now. destruct (processed_at event) as [t0|].
  2: { repeat split; auto; discriminate. }
  split; [discriminate|]. split; [|split; [|split]].
  - intros t [= <-] H. apply Z.leb_le. pose proof (backoff_le_cap retry_count). lia.
  - intros t [= <-] Hrc H. apply Z.leb_gt.
    pose proof (backoff_mono 0 retry_count ltac:(lia) Hrc) as Hm.
    change (_calculate_backoff 0) with 30 in Hm. lia.
  - intros later Hl H. apply Z.leb_le in H. apply Z.leb_le. lia.
  - intros lower Hlow H. apply Z.leb_le in H. apply Z.leb_le.
    pose proof (backoff_mono lower retry_count ltac:(lia) ltac:(lia)). lia.
Qed.

End RetryBatch.

(** ** Cleanup of expired events *)

Section Cleanup.
Import CleanupExpiredEvents.

Lemma any_retain_false (metadata : list MetadataField) :
  any_retain metadata = Ok false <->
  forall f, In f metadata -> field_name f = "retain" -> py_bool (field_value f) = Ok false.
Proof.
  induction metadata as [|f fs IH]; simpl.
  - split; [intros _ f [] | reflexivity].
  - destruct (String.eqb_spec (field_name f) "retain") as [Hn|Hn].
    + destruct (py_bool (field_value f)) as [[|]|e] eqn:Hb; simpl.
      * split; [discriminate|]. intros H. specialize (H f (or_introl eq_refl) Hn).
        rewrite Hb in H. discriminate H.
      * rewrite IH. split.
        -- intros H x [<-|Hx] Hx'; [exact Hb | now apply H].
        -- intros H x Hx. apply H. now right.
      * split; [discriminate|]. intros H. specialize (H f (or_introl eq_refl) Hn).
        rewrite Hb in H. discriminate H.
    + rewrite IH. split.
      * intros H x [<-|Hx] Hx'; [contradiction | now apply H].
      * intros H x Hx. apply H. now right.
Qed.

Lemma can_delete_true (env : Collaborators) (event : EventRow) :
  _can_delete env event = Ok true <->
  row_status event <> "pending"
  /\ (forall f, In f (row_metadata event) -> field_name f = "retain" ->
                py_bool (field_value f) = Ok false)
  /\ ~ (0 < get_retry_count env (row_id event) < 3).
Proof.
  unfold _can_delete. rewrite <- any_retain_false.
  destruct (String.eqb_spec (row_status event) "pending") as [Hp|Hp].
  { split; [discriminate | intros (H & _); contradiction]. }
  destruct (any_retain (row_metadata event)) as [[|]|e]; simpl.
  - split; [discriminate | intros (_ & H & _); discriminate H].
  - destruct (Z.ltb_spec 0 (get_retry_count env (row_id event))) as [H0|H0];
      destruct (Z.ltb_spec (get_retry_count env (row_id event)) 3) as [H3|H3]; simpl.
    + split; [discriminate | intros (_ & _ & H); exfalso; apply H; lia].
    + split; [intros _ | reflexivity]. split; [exact Hp|]. split; [reflexivity | lia].
    + split; [intros _ | reflexivity]. split; [exact Hp|]. split; [reflexivity | lia].
    + split; [intros _ | reflexivity]. split; [exact Hp|]. split; [reflexivity | lia].
  - split; [discriminate | intros (_ & H & _); discriminate H].
Qed.

Lemma any_retain_total (metadata : list MetadataField) :
  (forall f, In f metadata -> exists b, py_bool (field_value f) = Ok b) ->
  exists b, any_retain metadata = Ok b.
Proof.
  induction metadata as [|f fs IH]; simpl; intros H; [eauto|].
  assert (Hfs : forall x, In x fs -> exists b, py_bool (field_value x) = Ok b)
    by (intros; apply H; now right).
  destruct (String.eqb (field_name f) "retain"); [|now apply IH].
  destruct (H f (or_introl eq_refl)) as [b ->]. simpl.
  destruct b; [eauto | now apply IH].
Qed.

Lemma cleanup_fold (env : Collaborators) (events : list EventRow)
    (stats : Stats) (calls : list CleanupCall) :
  let deletable := fun e => match _can_delete env e with Ok true => true | _ => false end in
  let raising := fun e => match _can_delete env e with Raise _ => true | _ => false end in
  let not_error := fun c => match c with record_error _ _ => false | _ => true end in
  exists stats' new,
    fold_left (cleanup_event env) events (stats, calls) = (stats', calls ++ new)
    /\ deleted stats' = deleted stats + len (List.filter deletable events)
    /\ errors stats' = errors stats + len (List.filter raising events)
    /\ deleted stats' + retained stats' + errors stats'
       = deleted stats + retained stats + errors stats + len events
    /\ retained stats <= retained stats'
    /\ List.filter not_error new
       = flat_map (fun e => [delete_result (row_id e); delete_event (row_id e)])
           (List.filter deletable events).
Proof.
  cbv zeta. revert stats calls. induction events as [|ev events IH]; intros stats calls.
  - exists stats, []. simpl. rewrite app_nil_r. unfold len. simpl.
    repeat split; lia.
  - cbn [fold_left]. unfold cleanup_event at 2. cbn [List.filter].
    assert (Hl : len (ev :: events) = 1 + len events) by (unfold len; simpl; lia).
    rewrite Hl.
    destruct (_can_delete env ev) as [[|]|e];
      match goal with
      | |- context [fold_left _ events (?s, ?c)] =>
          destruct (IH s c) as (stats' & new & -> & Hd & He & Hsum & Hr & Hf)
      end; simpl in Hd, He, Hsum, Hr.
    + exists stats', ([delete_result (row_id ev); delete_event (row_id ev)] ++ new).
      split; [now rewrite <- app_assoc|]. simpl. rewrite Hf. unfold len in *. simpl.
      repeat split; lia.
    + exists stats', new. split; [reflexivity|]. rewrite Hf. repeat split; lia.
    + exists stats', ([record_error (row_id ev) ("Cleanup failed: " +:+ str_of_exn e)] ++ new).
      split; [now rewrite <- app_assoc|]. simpl. rewrite Hf. unfold len in *. simpl.
      repeat split; lia.
Qed.

(** X21: the cleanup only appends to the calls made before it; leaving
    the error records aside, what it appends is, for each deleted event in
    the order listed, the deletion of its result followed by the deletion
    of the event. An event is deleted only if it is not pending, has no
    "retain" field with a true value, and its retry count is not 1 or 2. *)
Theorem cleanup_deletes_only_settled_events
    (env : Collaborators) (list_events : Z -> list EventRow) (now retention_days : Z)
    (calls : list CleanupCall) :
  let events := list_events (now - retention_days * 86400) in
  let deletable := fun e => match _can_delete env e with Ok true => true | _ => false end in
  let not_error := fun c => match c with record_error _ _ => false | _ => true end in
  exists new,
    snd (execute env list_events now retention_days calls) = calls ++ new
    /\ List.filter not_error new
       = flat_map (fun e => [delete_result (row_id e); delete_event (row_id e)])
           (List.filter deletable events)
    /\ forall id, In (delete_event id) new ->
         exists e, In e events /\ row_id e = id
                   /\ row_status e <> "pending"
                   /\ (forall f, In f (row_metadata e) -> field_name f = "retain" ->
                                 py_bool (field_value f) = Ok false)
                   /\ ~ (0 < get_retry_count env id < 3).
Proof.
  cbv zeta. unfold execute.
  destruct (cleanup_fold env (list_events (now - retention_days * 86400))
              {| deleted := 0; retained := 0; errors := 0 |} calls)
    as (stats' & new & -> & _ & _ & _ & _ & Hf).
  cbv zeta in Hf. exists new. split; [reflexivity|]. split; [exact Hf|].
  intros id Hin.
  assert (Hin' : In (delete_event id)
                   (List.filter (fun c => match c with record_error _ _ => false | _ => true end)
                      new))
    by (apply filter_In; split; [exact Hin | reflexivity]).
  rewrite Hf in Hin'. apply in_flat_map in Hin' as (e & He & Hid).
  apply filter_In in He as [He Hdel].
  destruct Hid as [H|[H|[]]]; [discriminate H|]. injection H as <-.
  exists e. split; [exact He|]. split; [reflexivity|].
  apply can_delete_true. now destruct (_can_delete env e) as [[|]|].
Qed.

(** X22: the cleanup counts every listed event exactly once, as deleted,
    retained or error; an event counts as an error only when one of its
    "retain" fields has no truth value, so with metadata whose values all
    have one there are no errors. *)
Theorem cleanup_counts_every_event
    (env : Collaborators) (list_events : Z -> list EventRow) (now retention_days : Z)
    (calls : list CleanupCall) :
  let events := list_events (now - retention_days * 86400) in
  let stats := fst (execute env list_events now retention_days calls) in
  deleted stats + retained stats + errors stats = len events
  /\ deleted stats
     = len (List.filter
              (fun e => match _can_delete env e with Ok true => true | _ => false end)
              events)
  /\ 0 <= deleted stats /\ 0 <= retained stats /\ 0 <= errors stats
  /\ ((forall e f, In e events -> In f (row_metadata e) ->
                   exists b, py_bool (field_value f) = Ok b) ->
      errors stats = 0).
Proof.
  cbv zeta. unfold execute.
  destruct (cleanup_fold env (list_events (now - retention_days * 86400))
              {| deleted := 0; retained := 0; errors := 0 |} calls)
    as (stats' & new & -> & Hd & He & Hsum & Hr & _).
  cbv zeta in *. simpl in *. unfold len in *.
  split; [lia|]. split; [lia|]. split; [lia|]. split; [lia|]. split; [lia|].
  intros Hall. rewrite He.
  assert (Hnil : List.filter
                   (fun e => match _can_delete env e with Raise _ => true | _ => false end)
                   (list_events (now - retention_days * 86400)) = []).
  { apply filter_nil_iff. intros e Hin. unfold _can_delete.
    destruct (String.eqb (row_status e) "pending"); [reflexivity|].
    destruct (any_retain_total (row_metadata e) (fun f Hf => Hall e f Hin Hf)) as [b ->].
    simpl. destruct b; [reflexivity|]. now destruct (_ && _). }
  now rewrite Hnil.
Qed.

End Cleanup.

(** ** Pages of the event history *)

Section History.
Import ListEventHistory.

Lemma py_slice_window {A : Type} (l : list A) (a k : Z) :
  0 <= a -> 0 <= k ->
  py_slice l a (a + k) = take (Z.to_nat k) (drop (Z.to_nat a) l).
Proof.
  intros Ha Hk. unfold py_slice, slice_index, len.
  destruct (Z.ltb_spec a 0); [lia|]. destruct (Z.ltb_spec (a + k) 0); [lia|].
  destruct (Z.le_gt_cases (Z.of_nat (length l)) a) as [Hge|Hlt].
  - rewrite !drop_ge by lia. now rewrite !take_nil.
  - rewrite (Z.min_l a) by lia.
    destruct (Z.le_gt_cases (a + k) (Z.of_nat (length l))) as [Hin|Hout].
    + rewrite Z.min_l by lia. f_equal. lia.
    + rewrite Z.min_r by lia. rewrite !take_ge; [reflexivity | |];
        rewrite length_drop; lia.
Qed.

(** What [execute] returns for a positive page size and page number. *)
Lemma execute_page {F : Type}
    (list_events : Z -> Z -> option (list string) -> option string -> list Event)
    (fmt : Event -> F) (now : Z) (start_time end_time : option Z)
    (event_types : option (list string)) (status : option string) (page page_size : Z) :
  1 <= page_size -> 1 <= page ->
  execute list_events fmt now start_time end_time event_types status page page_size
  = inr {| history_events :=
             map fmt (take (Z.to_nat page_size)
                        (drop (Z.to_nat ((page - 1) * page_size))
                           (list_events (default (default now end_time - 7 * 86400) start_time)
                              (default now end_time) event_types status)));
           total := len (list_events (default (default now end_time - 7 * 86400) start_time)
                           (default now end_time) event_types status);
           page_number := page;
           pages := (len (list_events (default (default now end_time - 7 * 86400) start_time)
                            (default now end_time) event_types status)
                     + page_size - 1) `div` page_size |}.
Proof.
  intros Hs Hp. unfold execute.
  destruct (Z.eqb_spec page_size 0); [lia|].
  rewrite py_slice_window by nia. reflexivity.
Qed.

Lemma concat_windows {A : Type} (l : list A) (k m : nat) :
  concat (map (fun i => take k (drop (i * k) l)) (seq 0 m)) = take (m * k) l.
Proof.
  induction m as [|m IH]; [now rewrite take_0|].
  rewrite seq_S, map_app, concat_app, IH. simpl. rewrite app_nil_r.
  rewrite take_take_drop. f_equal. lia.
Qed.

(** X23: for a page size and a page number of at least 1 the history call
    returns the events from position (page-1)*page_size on, at most
    page_size of them, in the order listed; the page count is the number
    of events divided by the page size, rounded up; a page up to the page
    count is not empty and a page beyond it is. *)
Theorem history_page_bounds {F : Type}
    (list_events : Z -> Z -> option (list string) -> option string -> list Event)
    (fmt : Event -> F) (now : Z) (start_time end_time : option Z)
    (event_types : option (list string)) (status : option string) (page page_size : Z) :
  1 <= page_size -> 1 <= page ->
  let events := list_events (default (default now end_time - 7 * 86400) start_time)
                  (default now end_time) event_types status in
  exists h,
    execute list_events fmt now start_time end_time event_types status page page_size
      = inr h
    /\ total h = len events /\ page_number h = page
    /\ history_events h
       = map fmt (take (Z.to_nat page_size)
                    (drop (Z.to_nat ((page - 1) * page_size)) events))
    /\ len (history_events h)
       = Z.min page_size (Z.max 0 (len events - (page - 1) * page_size))
    /\ len events <= pages h * page_size < len events + page_size
    /\ (page <= pages h -> 1 <= len (history_events h))
    /\ (pages h < page -> history_events h = []).
Proof.
  intros Hs Hp events. eexists. split; [now apply execute_page|]. simpl.
  fold events. split; [reflexivity|]. split; [reflexivity|]. split; [reflexivity|].
  assert (Hlen : len (map fmt (take (Z.to_nat page_size)
                                 (drop (Z.to_nat ((page - 1) * page_size)) events)))
                 = Z.min page_size (Z.max 0 (len events - (page - 1) * page_size))).
  { unfold len. rewrite length_map, length_take, length_drop. nia. }
  assert (Hpages : len events <= (len events + page_size - 1) `div` page_size * page_size
                   < len events + page_size).
  { pose proof (Z.div_mod (len events + page_size - 1) page_size ltac:(lia)) as Hdm.
    pose proof (Z.mod_pos_bound (len events + page_size - 1) page_size ltac:(lia)) as Hb.
    nia. }
  split; [exact Hlen|]. split; [exact Hpages|]. split.
  - intros Hle. rewrite Hlen. unfold len in *. nia.
  - intros Hgt.
    assert (H0 : len (map fmt (take (Z.to_nat page_size)
                                 (drop (Z.to_nat ((page - 1) * page_size)) events))) = 0)
      by (rewrite Hlen; unfold len in *; nia).
    unfold len in H0. destruct (map fmt _); [reflexivity | simpl in H0; lia].
Qed.

Lemma history_page_bounds_witness :
  exists h,
    execute (fun _ _ _ _ => [Scenario.event1; Scenario.event1; Scenario.event1])
      event_id 0 None None None None 2 2 = inr h
    /\ total h = len [Scenario.event1; Scenario.event1; Scenario.event1]
    /\ page_number h = 2
    /\ history_events h
       = map event_id (take (Z.to_nat 2)
                         (drop (Z.to_nat ((2 - 1) * 2))
                            [Scenario.event1; Scenario.event1; Scenario.event1]))
    /\ len (history_events h)
       = Z.min 2 (Z.max 0 (len [Scenario.event1; Scenario.event1; Scenario.event1]
                           - (2 - 1) * 2))
    /\ len [Scenario.event1; Scenario.event1; Scenario.event1] <= pages h * 2
       < len [Scenario.event1; Scenario.event1; Scenario.event1] + 2
    /\ (2 <= pages h -> 1 <= len (history_events h))
    /\ (pages h < 2 -> history_events h = []).
Proof.
  apply (history_page_bounds
           (fun _ _ _ _ => [Scenario.event1; Scenario.event1; Scenario.event1])
           event_id 0 None None None None 2 2); lia.
Defined.

(** X24: for a page size of at least 1, the pages 1 to the page count,
    put one after the other, are exactly the listed events, each once and
    in order. *)
Theorem history_pages_partition_events {F : Type}
    (list_events : Z -> Z -> option (list string) -> option string -> list Event)
    (fmt : Event -> F) (now : Z) (start_time end_time : option Z)
    (event_types : option (list string)) (status : option string) (page_size : Z) :
  1 <= page_size ->
  let events := list_events (default (default now end_time - 7 * 86400) start_time)
                  (default now end_time) event_types status in
  let page_count := (len events + page_size - 1) `div` page_size in
  let page_of := fun p =>
    match execute list_events fmt now start_time end_time event_types status p page_size with
    | inr h => history_events h
    | inl _ => []
    end in
  concat (map (fun i => page_of (Z.of_nat i + 1)) (seq 0 (Z.to_nat page_count)))
  = map fmt events.
Proof.
  intros Hs events page_count page_of.
  assert (Hpage : forall i : nat,
            page_of (Z.of_nat i + 1)
            = map fmt (take (Z.to_nat page_size) (drop (i * Z.to_nat page_size) events))).
  { intros i. unfold page_of. rewrite execute_page by lia. simpl. fold events.
    do 3 f_equal. nia. }
  rewrite (map_ext _ _ Hpage).
  rewrite <- (map_map (fun i => take (Z.to_nat page_size)
                                  (drop (i * Z.to_nat page_size) events)) (map fmt)).
  rewrite <- concat_map, concat_windows. f_equal. apply take_ge.
  assert (Hpages : len events <= page_count * page_size).
  { unfold page_count.
    pose proof (Z.div_mod (len events + page_size - 1) page_size ltac:(lia)) as Hdm.
    pose proof (Z.mod_pos_bound (len events + page_size - 1) page_size ltac:(lia)) as Hb.
    nia. }
  unfold len in Hpages. nia.
Qed.

Lemma history_pages_partition_events_witness :
  concat (map (fun i =>
                 match execute (fun _ _ _ _ => [Scenario.event1; Scenario.event1;
                                                Scenario.event1])
                         event_id 0 None None None None (Z.of_nat i + 1) 2 with
                 | inr h => history_events h
                 | inl _ => []
                 end)
            (seq 0 (Z.to_nat ((len [Scenario.event1; Scenario.event1; Scenario.event1]
                               + 2 - 1) `div` 2))))
  = map event_id [Scenario.event1; Scenario.event1; Scenario.event1].
Proof.
  apply (history_pages_partition_events
           (fun _ _ _ _ => [Scenario.event1; Scenario.event1; Scenario.event1])
           event_id 0 None None None None 2). lia.
Defined.

(** A page size of 0, and no other, makes the history call fail with a
    division by zero. *)
Lemma history_page_size_zero {F : Type}
    (list_events : Z -> Z -> option (list string) -> option string -> list Event)
    (fmt : Event -> F) (now : Z) (start_time end_time : option Z)
    (event_types : option (list string)) (status : option string) (page page_size : Z) :
  execute list_events fmt now start_time end_time event_types status page page_size
    = inl division_by_zero
  <-> page_size = 0.
Proof.
  unfold execute. destruct (Z.eqb_spec page_size 0) as [E|E]; split.
  - intros _. exact E.
  - reflexivity.
  - discriminate.
  - intros H. contradiction.
Qed.

End History.
